(** * Spectacle's selection editor (src/Gui/SelectionEditor.cpp)

    A shallow embedding of the region-selection editor and its multi-screen
    compositor.  Floating point values ([qreal]) are modelled exactly as
    rationals [Q]; [int] values as [Z].  Qt's geometry value types are
    modelled after Qt 5's own definitions (the library the code calls). *)

From Stdlib Require Import ZArith QArith Qround Qminmax Lqa Lia List Bool.
Import ListNotations.

Open Scope Q_scope.

(** ** Qt numeric helpers *)

(** C++ conversion of a [double] to [int]: truncation toward zero. *)
Definition qtrunc (d : Q) : Z := Z.quot (Qnum d) (Zpos (Qden d)).

(** Qt 5's [qRound(double)]:
    [d >= 0.0 ? int(d + 0.5) : int(d - double(int(d-1)) + 0.5) + int(d-1)]. *)
Definition qRound (d : Q) : Z :=
  if Qle_bool 0 d then qtrunc (d + (1#2))
  else (qtrunc (d - inject_Z (qtrunc (d - 1)) + (1#2)) + qtrunc (d - 1))%Z.

(** [qMin]/[qMax] on [qreal]: [(a < b) ? a : b] and [(a < b) ? b : a]. *)
Definition qMin (a b : Q) : Q := if Qle_bool b a then b else a.
Definition qMax (a b : Q) : Q := if Qle_bool b a then a else b.
Definition qAbs (a : Q) : Q := if Qle_bool 0 a then a else - a.

(** [qFuzzyCompare(p1, p2)]: [qAbs(p1 - p2) * 1000000000000. <= qMin(qAbs(p1), qAbs(p2))]. *)
Definition qFuzzyCompare (p1 p2 : Q) : bool :=
  Qle_bool (qAbs (p1 - p2) * inject_Z 1000000000000) (qMin (qAbs p1) (qAbs p2)).

(** ** Qt geometry value types *)

Record QPoint := mkQPoint { ix : Z; iy : Z }.
Record QPointF := mkQPointF { fx : Q; fy : Q }.
Record QSize := mkQSize { sw : Z; sh : Z }.

(** [QRect] is stored by Qt as its two corners [x1, y1, x2, y2];
    [width() = x2 - x1 + 1]. *)
Record QRect := mkQRect { x1 : Z; y1 : Z; x2 : Z; y2 : Z }.

(** [QRectF] is stored as [xp, yp, w, h]. *)
Record QRectF := mkQRectF { xp : Q; yp : Q; w : Q; h : Q }.

Definition QRect_null : QRect := mkQRect 0 0 (-1) (-1).
Definition QRect_xywh (x y ww hh : Z) : QRect := mkQRect x y (x + ww - 1) (y + hh - 1).
Definition QRect_ps (p : QPoint) (s : QSize) : QRect := QRect_xywh (ix p) (iy p) (sw s) (sh s).

Definition rect_width (r : QRect) : Z := (x2 r - x1 r + 1)%Z.
Definition rect_height (r : QRect) : Z := (y2 r - y1 r + 1)%Z.
Definition rect_size (r : QRect) : QSize := mkQSize (rect_width r) (rect_height r).
Definition rect_topLeft (r : QRect) : QPoint := mkQPoint (x1 r) (y1 r).

Definition rect_isNull (r : QRect) : bool := (Z.eqb (x2 r) (x1 r - 1) && Z.eqb (y2 r) (y1 r - 1))%Z.
Definition rect_isEmpty (r : QRect) : bool := (Z.ltb (x2 r) (x1 r) || Z.ltb (y2 r) (y1 r))%Z.

Definition size_eqb (a b : QSize) : bool := (Z.eqb (sw a) (sw b) && Z.eqb (sh a) (sh b))%Z.

(** [QSize * qreal] and [QSize / qreal] round each component with [qRound]. *)
Definition size_mul (s : QSize) (f : Q) : QSize :=
  mkQSize (qRound (inject_Z (sw s) * f)) (qRound (inject_Z (sh s) * f)).
Definition size_div (s : QSize) (f : Q) : QSize :=
  mkQSize (qRound (inject_Z (sw s) / f)) (qRound (inject_Z (sh s) / f)).

Definition point_mul (p : QPoint) (f : Q) : QPoint :=
  mkQPoint (qRound (inject_Z (ix p) * f)) (qRound (inject_Z (iy p) * f)).
Definition point_sub (p q : QPoint) : QPoint := mkQPoint (ix p - ix q) (iy p - iy q).

(** [QRect::moveTopLeft], [setWidth], [setHeight]. *)
Definition rect_moveTopLeft (r : QRect) (p : QPoint) : QRect :=
  mkQRect (ix p) (iy p) (x2 r + (ix p - x1 r)) (y2 r + (iy p - y1 r)).
Definition rect_setWidth (r : QRect) (ww : Z) : QRect := mkQRect (x1 r) (y1 r) (x1 r + ww - 1) (y2 r).
Definition rect_setHeight (r : QRect) (hh : Z) : QRect := mkQRect (x1 r) (y1 r) (x2 r) (y1 r + hh - 1).
Definition rect_setSize (r : QRect) (s : QSize) : QRect :=
  mkQRect (x1 r) (y1 r) (x1 r + sw s - 1) (y1 r + sh s - 1).

(** The left/right (top/bottom) ends of a [QRect] as Qt 5 computes them in
    [intersects], [operator&] and [operator|]. *)
Definition rect_l (r : QRect) : Z := if Z.ltb (x2 r - x1 r + 1) 0 then x2 r else x1 r.
Definition rect_r (r : QRect) : Z := if Z.ltb (x2 r - x1 r + 1) 0 then x1 r else x2 r.
Definition rect_t (r : QRect) : Z := if Z.ltb (y2 r - y1 r + 1) 0 then y2 r else y1 r.
Definition rect_b (r : QRect) : Z := if Z.ltb (y2 r - y1 r + 1) 0 then y1 r else y2 r.

(** [QRect::intersects]. *)
Definition rect_intersects (a b : QRect) : bool :=
  if rect_isNull a || rect_isNull b then false
  else if Z.ltb (rect_r b) (rect_l a) || Z.ltb (rect_r a) (rect_l b) then false
  else if Z.ltb (rect_b b) (rect_t a) || Z.ltb (rect_b a) (rect_t b) then false
  else true.

(** [QRect::intersected] ([operator&]). *)
Definition rect_intersected (a b : QRect) : QRect :=
  if rect_isNull a || rect_isNull b then QRect_null
  else if Z.ltb (rect_r b) (rect_l a) || Z.ltb (rect_r a) (rect_l b) then QRect_null
  else if Z.ltb (rect_b b) (rect_t a) || Z.ltb (rect_b a) (rect_t b) then QRect_null
  else mkQRect (Z.max (rect_l a) (rect_l b)) (Z.max (rect_t a) (rect_t b))
               (Z.min (rect_r a) (rect_r b)) (Z.min (rect_b a) (rect_b b)).

(** [QRect::united] ([operator|]). *)
Definition rect_united (a b : QRect) : QRect :=
  if rect_isNull a then b
  else if rect_isNull b then a
  else mkQRect (Z.min (rect_l a) (rect_l b)) (Z.min (rect_t a) (rect_t b))
               (Z.max (rect_r a) (rect_r b)) (Z.max (rect_b a) (rect_b b)).

(** [QRectF] accessors and mutators. *)
Definition rf_left (r : QRectF) : Q := xp r.
Definition rf_top (r : QRectF) : Q := yp r.
Definition rf_right (r : QRectF) : Q := xp r + w r.
Definition rf_bottom (r : QRectF) : Q := yp r + h r.
Definition rf_topLeft (r : QRectF) : QPointF := mkQPointF (xp r) (yp r).

Definition rf_normalized (r : QRectF) : QRectF :=
  let r1 := if Qle_bool 0 (w r) then r else mkQRectF (xp r + w r) (yp r) (- w r) (h r) in
  if Qle_bool 0 (h r1) then r1 else mkQRectF (xp r1) (yp r1 + h r1) (w r1) (- h r1).

Definition rf_isEmpty (r : QRectF) : bool := Qle_bool (w r) 0 || Qle_bool (h r) 0.

Definition rf_setRight (r : QRectF) (pos : Q) : QRectF := mkQRectF (xp r) (yp r) (pos - xp r) (h r).
Definition rf_setBottom (r : QRectF) (pos : Q) : QRectF := mkQRectF (xp r) (yp r) (w r) (pos - yp r).
Definition rf_moveLeft (r : QRectF) (pos : Q) : QRectF := mkQRectF pos (yp r) (w r) (h r).
Definition rf_moveTop (r : QRectF) (pos : Q) : QRectF := mkQRectF (xp r) pos (w r) (h r).
Definition rf_moveTo (r : QRectF) (x y : Q) : QRectF := mkQRectF x y (w r) (h r).
Definition rf_translated (r : QRectF) (dx dy : Q) : QRectF := mkQRectF (xp r + dx) (yp r + dy) (w r) (h r).
Definition rf_adjusted (r : QRectF) (dx1 dy1 dx2 dy2 : Q) : QRectF :=
  mkQRectF (xp r + dx1) (yp r + dy1) (w r + dx2 - dx1) (h r + dy2 - dy1).

(** [QRectF::contains(const QPointF &)]: closed on all sides, false for a
    null rectangle. *)
Definition rf_containsPoint (r : QRectF) (p : QPointF) : bool :=
  let l := if Qle_bool 0 (w r) then xp r else xp r + w r in
  let rr := if Qle_bool 0 (w r) then xp r + w r else xp r in
  let t := if Qle_bool 0 (h r) then yp r else yp r + h r in
  let b := if Qle_bool 0 (h r) then yp r + h r else yp r in
  if Qeq_bool l rr then false
  else if negb (Qle_bool l (fx p)) || negb (Qle_bool (fx p) rr) then false
  else if Qeq_bool t b then false
  else if negb (Qle_bool t (fy p)) || negb (Qle_bool (fy p) b) then false
  else true.

(** [QRectF::contains(const QRectF &)]. *)
Definition rf_containsRect (a r : QRectF) : bool :=
  let l1 := if Qle_bool 0 (w a) then xp a else xp a + w a in
  let r1 := if Qle_bool 0 (w a) then xp a + w a else xp a in
  let l2 := if Qle_bool 0 (w r) then xp r else xp r + w r in
  let r2 := if Qle_bool 0 (w r) then xp r + w r else xp r in
  let t1 := if Qle_bool 0 (h a) then yp a else yp a + h a in
  let b1 := if Qle_bool 0 (h a) then yp a + h a else yp a in
  let t2 := if Qle_bool 0 (h r) then yp r else yp r + h r in
  let b2 := if Qle_bool 0 (h r) then yp r + h r else yp r in
  if Qeq_bool l1 r1 || Qeq_bool l2 r2 then false
  else if negb (Qle_bool l1 l2) || negb (Qle_bool r2 r1) then false
  else if Qeq_bool t1 b1 || Qeq_bool t2 b2 then false
  else if negb (Qle_bool t1 t2) || negb (Qle_bool b2 b1) then false
  else true.

(** [QRectF::toRect()] (Qt 5): the corners are rounded. *)
Definition rf_toRect (r : QRectF) : QRect :=
  mkQRect (qRound (xp r)) (qRound (yp r)) (qRound (xp r + w r) - 1) (qRound (yp r + h r) - 1).

(** [QRectF(const QRect &)]. *)
Definition rf_ofRect (r : QRect) : QRectF :=
  mkQRectF (inject_Z (x1 r)) (inject_Z (y1 r)) (inject_Z (rect_width r)) (inject_Z (rect_height r)).

(** The normalized rectangle lies in [b]: the containment the claims speak of. *)
Definition rf_within (r b : QRectF) : Prop :=
  let n := rf_normalized r in
  xp b <= xp n /\ yp b <= yp n /\ xp n + w n <= xp b + w b /\ yp n + h n <= yp b + h b.



(** ** Images *)

(** A [QImage]: its pixel size, its device-pixel ratio and its pixels (ARGB
    values, read through [pixel x y] for [0 <= x < img_w], [0 <= y < img_h]). *)
Record QImage := mkQImage { img_w : Z; img_h : Z; img_dpr : Q; pixel : Z -> Z -> Z }.

Definition img_size (i : QImage) : QSize := mkQSize (img_w i) (img_h i).

Definition img_setDevicePixelRatio (i : QImage) (d : Q) : QImage :=
  mkQImage (img_w i) (img_h i) d (pixel i).

(** [QImage::copy(const QRect &r)]: a null [r] copies the whole image, an
    empty [r] gives a null image; pixels of [r] outside the source are
    cleared to 0; the device-pixel ratio is kept. *)
Definition img_copy (i : QImage) (r : QRect) : QImage :=
  if rect_isNull r then i
  else if Z.leb (rect_width r) 0 || Z.leb (rect_height r) 0 then mkQImage 0 0 (img_dpr i) (fun _ _ => 0%Z)
  else mkQImage (rect_width r) (rect_height r) (img_dpr i)
         (fun x y =>
            let sx := (x + x1 r)%Z in let sy := (y + y1 r)%Z in
            if ((0 <=? sx) && (sx <? img_w i) && (0 <=? sy) && (sy <? img_h i))%Z
            then pixel i sx sy else 0%Z).

(** [QPixmap::copy(const QRect &rect)]: a null pixmap gives a null pixmap;
    otherwise the area copied is the pixmap's rectangle intersected with
    [rect], or the whole pixmap when [rect] is empty (a null intersection,
    as the raster backend reads it, is the whole pixmap too). *)
Definition pixmap_copy (i : QImage) (r : QRect) : QImage :=
  if (img_w i <=? 0)%Z || (img_h i <=? 0)%Z then mkQImage 0 0 (img_dpr i) (fun _ _ => 0%Z)
  else
    let full := QRect_xywh 0 0 (img_w i) (img_h i) in
    img_copy i (if rect_isEmpty r then full else rect_intersected full r).

Definition black : Z := 4278190080%Z.

(** [painter.drawImage(QPoint p, image)] onto [dst] at the image's own pixel
    size (both at device-pixel ratio 1). *)
Definition img_drawAt (dst : QImage) (p : QPoint) (src : QImage) : QImage :=
  mkQImage (img_w dst) (img_h dst) (img_dpr dst)
    (fun x y =>
       let sx := (x - ix p)%Z in let sy := (y - iy p)%Z in
       if ((0 <=? sx) && (sx <? img_w src) && (0 <=? sy) && (sy <? img_h src))%Z
       then pixel src sx sy else pixel dst x y).

(** A captured screen: [CanvasImage { QImage image; QRectF rect; ... }]. *)
Record CanvasImage := mkCanvasImage { ci_rect : QRectF; ci_image : QImage }.

Inductive Platform := X11 | Wayland.

(** ** Mouse locations ([SelectionEditor::MouseLocation]) *)

Module MouseLocation.
Inductive t := None | Inside | Outside | TopLeft | Top | TopRight | Right
             | BottomRight | Bottom | BottomLeft | Left.
End MouseLocation.

(** ** Editor state ([SelectionEditorPrivate]) *)

Record EditorState := mkEditorState {
  selection : QRectF;            (* the rectangle held by [Selection] *)
  startPos : QPointF;
  initialTopLeft : QPointF;
  dragLocation : MouseLocation.t;
  image : QImage;
  screenImages : list CanvasImage;
  devicePixelRatio : Q;
  devicePixel : Q;
  mousePos : QPointF;
  magnifierAllowed : bool;
  disableArrowKeys : bool;
  screensRect : QRectF;
  handlePositions : list QPointF;  (* 8 entries *)
  handleRadius : Q;
  penWidth : Q
}.

Definition s_handleRadiusMouse : Q := 9.
Definition s_handleRadiusTouch : Q := 12.
Definition s_minSpacingBetweenHandles : Q := 20.
Definition s_borderDragAreaSize : Q := 10.
Definition s_magnifierLargeStep : Q := 15.

(** *** Geometry helpers (src/Gui/Geometry.cpp is not among the sources) *)

(** Modelled from the spec: [Geometry::ellipseContains(rect, point)], the
    handle's "circular hit-zone": the closed ellipse inscribed in [rect]. *)
Definition ellipseContains (r : QRectF) (p : QPointF) : bool :=
  let a := w r / 2 in let b := h r / 2 in
  let dx := fx p - (xp r + a) in let dy := fy p - (yp r + b) in
  Qle_bool (dx * dx * (b * b) + dy * dy * (a * a)) (a * a * (b * b)).


(** Modelled from the spec: [Geometry::dprRound(value, dpr)], a logical
    length rounded to whole device pixels. *)
Definition dprRound (value dpr : Q) : Q := inject_Z (qRound (value * dpr)) / dpr.

(** Modelled from the spec: [Geometry::rectBounded(rect, bounds)], "clamping
    so it cannot leave the combined screen bounds": the size is cut to the
    bounds' size and the position clamped into the bounds. *)
Definition rectBounded (r b : QRectF) : QRectF :=
  let nw := qMin (w r) (w b) in
  let nh := qMin (h r) (h b) in
  mkQRectF (qMax (xp b) (qMin (xp r) (xp b + w b - nw)))
           (qMax (yp b) (qMin (yp r) (yp b + h b - nh))) nw nh.

(** Modelled from the spec: [Geometry::rectClipped(rect, clipRect)], the crop
    region limited to the canvas, as the rectangles' intersection
    ([QRectF::intersected]). *)
Definition rectClipped (a b : QRectF) : QRectF :=
  let l1 := if Qle_bool 0 (w a) then xp a else xp a + w a in
  let r1 := if Qle_bool 0 (w a) then xp a + w a else xp a in
  let l2 := if Qle_bool 0 (w b) then xp b else xp b + w b in
  let r2 := if Qle_bool 0 (w b) then xp b + w b else xp b in
  let t1 := if Qle_bool 0 (h a) then yp a else yp a + h a in
  let b1 := if Qle_bool 0 (h a) then yp a + h a else yp a in
  let t2 := if Qle_bool 0 (h b) then yp b else yp b + h b in
  let b2 := if Qle_bool 0 (h b) then yp b + h b else yp b in
  let null := mkQRectF 0 0 0 0 in
  if Qeq_bool l1 r1 || Qeq_bool l2 r2 then null
  else if Qle_bool r2 l1 || Qle_bool r1 l2 then null
  else if Qeq_bool t1 b1 || Qeq_bool t2 b2 then null
  else if Qle_bool b2 t1 || Qle_bool b1 t2 then null
  else let x := qMax l1 l2 in let y := qMax t1 t2 in
       mkQRectF x y (qMin r1 r2 - x) (qMin b1 b2 - y).

(** *** [SelectionEditorPrivate::mouseLocation] *)

Definition nthPoint (l : list QPointF) (n : nat) : QPointF := nth n l (mkQPointF 0 0).

(** [G::ellipseContains(handleRect.translated(handlePositions[n]), pos)]
    with [handleRect(-handleRadius, -handleRadius, handleRadius * 2, handleRadius * 2)]. *)
Definition inHandleZone (st : EditorState) (pos : QPointF) (n : nat) : bool :=
  let r := handleRadius st in
  let handleRect := mkQRectF (- r) (- r) (r * 2) (r * 2) in
  let c := nthPoint (handlePositions st) n in
  ellipseContains (rf_translated handleRect (fx c) (fy c)) pos.

Definition mouseLocation (st : EditorState) (pos : QPointF) : MouseLocation.t :=
  let inHandle := inHandleZone st pos in
  if inHandle 0%nat then MouseLocation.TopLeft
  else if inHandle 1%nat then MouseLocation.TopRight
  else if inHandle 2%nat then MouseLocation.BottomRight
  else if inHandle 3%nat then MouseLocation.BottomLeft
  else if inHandle 4%nat then MouseLocation.Top
  else if inHandle 5%nat then MouseLocation.Right
  else if inHandle 6%nat then MouseLocation.Bottom
  else if inHandle 7%nat then MouseLocation.Left
  else
  let rect := rf_normalized (selection st) in
  if Qle_bool 100 (w rect) && Qle_bool 100 (h rect) then
    if rf_containsPoint (rf_adjusted rect 0 0 0 (- h rect + s_borderDragAreaSize)) pos
    then MouseLocation.Top
    else if rf_containsPoint (rf_adjusted rect 0 (h rect - s_borderDragAreaSize) 0 0) pos
    then MouseLocation.Bottom
    else if rf_containsPoint (rf_adjusted rect 0 0 (- w rect + s_borderDragAreaSize) 0) pos
    then MouseLocation.Left
    else if rf_containsPoint (rf_adjusted rect (w rect - s_borderDragAreaSize) 0 0 0) pos
    then MouseLocation.Right
    else if rf_containsPoint rect pos then MouseLocation.Inside else MouseLocation.Outside
  else if rf_containsPoint rect pos then MouseLocation.Inside else MouseLocation.Outside.

(** *** State updates *)

Definition st_with (st : EditorState) (sel : QRectF) (sp itl : QPointF) (dl : MouseLocation.t)
  (mp : QPointF) (ma dak : bool) (hp : list QPointF) (hr : Q) : EditorState :=
  mkEditorState sel sp itl dl (image st) (screenImages st) (devicePixelRatio st) (devicePixel st)
    mp ma dak (screensRect st) hp hr (penWidth st).

(** [SelectionEditorPrivate::updateHandlePositions], run on the selection's
    [rectChanged] notification. *)
Definition updateHandlePositions (sel screens : QRectF) (handleRadius penWidth : Q) : list QPointF :=
  let left := xp sel in
  let centerX := xp sel + w sel / 2 in
  let right := xp sel + w sel in
  let top := yp sel in
  let centerY := yp sel + h sel / 2 in
  let bottom := yp sel + h sel in
  let minDragHandleSpace := 4 * handleRadius + 2 * s_minSpacingBetweenHandles in
  let minEdgeLength := qMin (w sel) (h sel) in
  let '(offset, offsetTop, offsetRight, offsetBottom, offsetLeft) :=
    if negb (Qle_bool minDragHandleSpace minEdgeLength) then
      ((minDragHandleSpace - minEdgeLength) / 2, 0, 0, 0, 0)
    else
      let tsr := rf_translated screens (- xp screens) (- yp screens) in
      let oT := top - yp tsr - handleRadius in
      let oR := rf_right tsr - right - handleRadius + penWidth in
      let oB := rf_bottom tsr - bottom - handleRadius + penWidth in
      let oL := left - xp tsr - handleRadius in
      (0, (if Qle_bool 0 oT then 0 else oT), (if Qle_bool 0 oR then 0 else oR),
          (if Qle_bool 0 oB then 0 else oB), (if Qle_bool 0 oL then 0 else oL)) in
  [ mkQPointF (left - offset - offsetLeft) (top - offset - offsetTop);
    mkQPointF (right + offset + offsetRight) (top - offset - offsetTop);
    mkQPointF (right + offset + offsetRight) (bottom + offset + offsetBottom);
    mkQPointF (left - offset - offsetLeft) (bottom + offset + offsetBottom);
    mkQPointF centerX (top - offset - offsetTop);
    mkQPointF (right + offset + offsetRight) centerY;
    mkQPointF centerX (bottom + offset + offsetBottom);
    mkQPointF (left - offset - offsetLeft) centerY ].

(** [selection->setRect(r)]: the rectangle changes and the handles follow. *)
Definition setSelection (st : EditorState) (r : QRectF) : EditorState :=
  st_with st r (startPos st) (initialTopLeft st) (dragLocation st) (mousePos st)
    (magnifierAllowed st) (disableArrowKeys st)
    (updateHandlePositions r (screensRect st) (handleRadius st) (penWidth st)) (handleRadius st).

(** *** [SelectionEditor::mousePressEvent] *)

Inductive Button := LeftButton | RightButton | OtherButton.

(** [pos] is the event's scene position ([windowPos] plus the window's
    position); [synthesized] tells a touch-synthesized event. *)
Definition mousePressEvent (st : EditorState) (synthesized : bool) (button : Button) (pos : QPointF)
  : EditorState :=
  let hr := if synthesized then s_handleRadiusTouch else s_handleRadiusMouse in
  let st0 := st_with st (selection st) (startPos st) (initialTopLeft st) (dragLocation st)
               (mousePos st) (magnifierAllowed st) (disableArrowKeys st) (handlePositions st) hr in
  match button with
  | OtherButton => st0
  | _ =>
    let st1 := match button with RightButton => setSelection st0 (mkQRectF 0 0 0 0) | _ => st0 end in
    let st2 := st_with st1 (selection st1) (startPos st1) (initialTopLeft st1) (dragLocation st1)
                 pos (magnifierAllowed st1) (disableArrowKeys st1) (handlePositions st1) hr in
    let dl := mouseLocation st2 pos in
    let sel := selection st2 in
    let '(sp, itl, ma) :=
      match dl with
      | MouseLocation.Outside => (pos, initialTopLeft st2, true)
      | MouseLocation.Inside => (pos, rf_topLeft sel, false)
      | MouseLocation.Top | MouseLocation.Left | MouseLocation.TopLeft =>
          (mkQPointF (rf_right sel) (rf_bottom sel), initialTopLeft st2, true)
      | MouseLocation.Bottom | MouseLocation.Right | MouseLocation.BottomRight =>
          (rf_topLeft sel, initialTopLeft st2, true)
      | MouseLocation.TopRight => (mkQPointF (xp sel) (rf_bottom sel), initialTopLeft st2, true)
      | MouseLocation.BottomLeft => (mkQPointF (rf_right sel) (yp sel), initialTopLeft st2, true)
      | MouseLocation.None => (startPos st2, initialTopLeft st2, true)
      end in
    st_with st2 sel sp itl dl pos ma true (handlePositions st2) hr
  end.

(** *** [SelectionEditor::mouseMoveEvent] (item with a window and a screen) *)

Definition mouseMoveEvent (st : EditorState) (pos : QPointF) : EditorState :=
  let sp := startPos st in
  let dp := devicePixel st in
  let sel := selection st in
  let upd (st' : EditorState) (ma : bool) :=
    st_with st' (selection st') (startPos st') (initialTopLeft st') (dragLocation st') pos ma
      (disableArrowKeys st') (handlePositions st') (handleRadius st') in
  match dragLocation st with
  | MouseLocation.None => upd st false
  | MouseLocation.TopLeft | MouseLocation.TopRight
  | MouseLocation.BottomRight | MouseLocation.BottomLeft =>
      let afterX := Qle_bool (fx sp) (fx pos) in
      let afterY := Qle_bool (fy sp) (fy pos) in
      upd (setSelection st (mkQRectF (if afterX then fx sp else fx pos)
                                    (if afterY then fy sp else fy pos)
                                    (qAbs (fx pos - fx sp) + (if afterX then dp else 0))
                                    (qAbs (fy pos - fy sp) + (if afterY then dp else 0)))) true
  | MouseLocation.Outside =>
      upd (setSelection st (mkQRectF (qMin (fx pos) (fx sp)) (qMin (fy pos) (fy sp))
                                    (qAbs (fx pos - fx sp) + dp) (qAbs (fy pos - fy sp) + dp))) true
  | MouseLocation.Top | MouseLocation.Bottom =>
      let afterY := Qle_bool (fy sp) (fy pos) in
      upd (setSelection st (mkQRectF (xp sel) (if afterY then fy sp else fy pos) (w sel)
                                    (qAbs (fy pos - fy sp) + (if afterY then dp else 0)))) true
  | MouseLocation.Right | MouseLocation.Left =>
      let afterX := Qle_bool (fx sp) (fx pos) in
      upd (setSelection st (mkQRectF (if afterX then fx sp else fx pos) (yp sel)
                                    (qAbs (fx pos - fx sp) + (if afterX then dp else 0)) (h sel))) true
  | MouseLocation.Inside =>
      let dpr := devicePixelRatio st in
      let itl := initialTopLeft st in
      let newRect := mkQRectF ((fx pos - fx sp + fx itl) * dpr) ((fy pos - fy sp + fy itl) * dpr)
                              (w sel * dpr) (h sel * dpr) in
      let sr := screensRect st in
      let tsr := rf_translated sr (- xp sr) (- yp sr) in
      let newRect :=
        if negb (rf_containsRect tsr newRect) then
          rf_moveTo newRect
            (qMin (rf_right tsr - w newRect) (qMax (xp newRect) (xp tsr)) * dp)
            (qMin (rf_bottom tsr - h newRect) (qMax (yp newRect) (yp tsr)) * dp)
        else newRect in
      upd (setSelection st (rectBounded newRect sr)) false
  end.

(** *** Keyboard: [boundsLeft/Right/Up/Down] and [handleArrowKey] *)

(** [SelectionEditor::width()] / [height()]: the [qreal] size of
    [screensRect] returned as [int]. *)
Definition q_width (st : EditorState) : Z := qtrunc (w (screensRect st)).
Definition q_height (st : EditorState) : Z := qtrunc (h (screensRect st)).

(** Each returns the bounded position and the (possibly tweaked) [startPos]. *)
Definition boundsLeft (st : EditorState) (newTopLeftX : Z) (mouse : bool) : Z * QPointF :=
  if (newTopLeftX <? 0)%Z then
    (0%Z, if mouse then mkQPointF (fx (startPos st) + inject_Z newTopLeftX * devicePixel st) (fy (startPos st))
          else startPos st)
  else (newTopLeftX, startPos st).

Definition boundsRight (st : EditorState) (newTopLeftX : Z) (mouse : bool) : Z * QPointF :=
  let realMaxX := qRound ((inject_Z (q_width st) - w (selection st)) * devicePixelRatio st) in
  let xOffset := (newTopLeftX - realMaxX)%Z in
  if (0 <? xOffset)%Z then
    (realMaxX, if mouse then mkQPointF (fx (startPos st) + inject_Z xOffset * devicePixel st) (fy (startPos st))
               else startPos st)
  else (newTopLeftX, startPos st).

Definition boundsUp (st : EditorState) (newTopLeftY : Z) (mouse : bool) : Z * QPointF :=
  if (newTopLeftY <? 0)%Z then
    (0%Z, if mouse then mkQPointF (fx (startPos st)) (fy (startPos st) + inject_Z newTopLeftY * devicePixel st)
          else startPos st)
  else (newTopLeftY, startPos st).

Definition boundsDown (st : EditorState) (newTopLeftY : Z) (mouse : bool) : Z * QPointF :=
  let realMaxY := qRound ((inject_Z (q_height st) - h (selection st)) * devicePixelRatio st) in
  let yOffset := (newTopLeftY - realMaxY)%Z in
  if (0 <? yOffset)%Z then
    (realMaxY, if mouse then mkQPointF (fx (startPos st)) (fy (startPos st) + inject_Z yOffset * devicePixel st)
               else startPos st)
  else (newTopLeftY, startPos st).

Inductive ArrowKey := Key_Left | Key_Right | Key_Up | Key_Down.

(** [SelectionEditorPrivate::handleArrowKey]; [shift] and [alt] are the
    event's Shift and Alt modifiers. *)
Definition handleArrowKey (st : EditorState) (shift alt : bool) (key : ArrowKey) : EditorState :=
  if disableArrowKeys st then st else
  let modifySize := alt in
  let dpr := devicePixelRatio st in
  let dp := devicePixel st in
  let step := if shift then dp else dprRound s_magnifierLargeStep dpr in
  let selectionRect := selection st in
  let selectionRect :=
    match key with
    | Key_Left =>
        let newPos := fst (boundsLeft st (qRound (rf_left selectionRect * dpr - step)) false) in
        if modifySize
        then rf_normalized (rf_setRight selectionRect (dp * inject_Z newPos + w selectionRect))
        else rf_moveLeft selectionRect (dp * inject_Z newPos)
    | Key_Right =>
        let newPos := fst (boundsRight st (qRound (rf_left selectionRect * dpr + step)) false) in
        if modifySize
        then rf_setRight selectionRect (dp * inject_Z newPos + w selectionRect)
        else rf_moveLeft selectionRect (dp * inject_Z newPos)
    | Key_Up =>
        let newPos := fst (boundsUp st (qRound (rf_top selectionRect * dpr - step)) false) in
        if modifySize
        then rf_normalized (rf_setBottom selectionRect (dp * inject_Z newPos + h selectionRect))
        else rf_moveTop selectionRect (dp * inject_Z newPos)
    | Key_Down =>
        let newPos := fst (boundsDown st (qRound (rf_top selectionRect * dpr + step)) false) in
        if modifySize
        then rf_setBottom selectionRect (dp * inject_Z newPos + h selectionRect)
        else rf_moveTop selectionRect (dp * inject_Z newPos)
    end in
  setSelection st (if modifySize then selectionRect else rectBounded selectionRect (screensRect st)).

(** ** The compositor *)

(** *** [SelectionEditor::setScreenImages] *)

(** [screenImages[i].rect.topLeft().toPoint()]. *)
Definition screenPos (ci : CanvasImage) : QPoint :=
  mkQPoint (qRound (xp (ci_rect ci))) (qRound (yp (ci_rect ci))).

Definition virtualScreenRect (plat : Platform) (ci : CanvasImage) : QRect :=
  match plat with
  | X11 => QRect_ps (screenPos ci) (img_size (ci_image ci))
  | Wayland => QRect_ps (screenPos ci) (size_div (img_size (ci_image ci)) (img_dpr (ci_image ci)))
  end.

(** The first loop: [screensRect = screensRect.united(virtualScreenRect)]
    from a default-constructed (null) [QRect]. *)
Definition screensRectOf (plat : Platform) (imgs : list CanvasImage) : QRect :=
  fold_left (fun acc ci => rect_united acc (virtualScreenRect plat ci)) imgs QRect_null.

(** The inner loop [for (int i2 = i; ...)], over the screens from [i] on and
    their entries of [translatedPoints]. *)
Fixpoint shiftNext (rest : list CanvasImage) (tps : list QPoint) (limX limY deltaX deltaY : Z)
  : list QPoint :=
  match rest, tps with
  | ci :: rest', tp :: tps' =>
      let point := rf_topLeft (ci_rect ci) in
      let tx := if Qle_bool (inject_Z limX) (fx point) then (ix tp + deltaX)%Z else ix tp in
      let ty := if Qle_bool (inject_Z limY) (fy point) then (iy tp + deltaY)%Z else iy tp in
      mkQPoint tx ty :: shiftNext rest' tps' limX limY deltaX deltaY
  | _, _ => tps
  end.

(** The "compute coordinates after scaling" loop, screen [i] at a time. *)
Fixpoint computeTranslatedPoints (all todo : list CanvasImage) (i : nat) (tps : list QPoint)
  : list QPoint :=
  match todo with
  | [] => tps
  | ci :: todo' =>
      let p := screenPos ci in
      let size := img_size (ci_image ci) in
      let dpr := img_dpr (ci_image ci) in
      let tps' :=
        if negb (qFuzzyCompare dpr 1) then
          (* must update all coordinates of next rects *)
          let newWidth := sw size in
          let newHeight := sh size in
          let deltaX := (newWidth - sw size)%Z in
          let deltaY := (newHeight - sh size)%Z in
          firstn i tps ++ shiftNext (skipn i all) (skipn i tps)
                             (newWidth + ix p - deltaX) (newHeight + iy p - deltaY) deltaX deltaY
        else tps in
      computeTranslatedPoints all todo' (S i) tps'
  end.

Definition translatedPoints (imgs : list CanvasImage) : list QPoint :=
  computeTranslatedPoints imgs imgs 0 (map screenPos imgs).

(** The canvas [d->image]: a black [QImage] of the screens' size, each
    screen image drawn (at ratio 1) at its translated point minus the
    canvas's top-left corner. *)
Definition canvasOf (imgs : list CanvasImage) (tps : list QPoint) (sr : QRect) : QImage :=
  fold_left (fun acc '(ci, tp) =>
               img_drawAt acc (point_sub tp (rect_topLeft sr)) (img_setDevicePixelRatio (ci_image ci) 1))
            (combine imgs tps)
            (mkQImage (rect_width sr) (rect_height sr) 1 (fun _ _ => black)).

(** Where screen [i]'s image lands on the canvas. *)
Definition drawnRect (imgs : list CanvasImage) (tps : list QPoint) (sr : QRect) (i : nat) : QRect :=
  match nth_error imgs i, nth_error tps i with
  | Some ci, Some tp => QRect_ps (point_sub tp (rect_topLeft sr)) (img_size (ci_image ci))
  | _, _ => QRect_null
  end.

Definition setScreenImages (plat : Platform) (st : EditorState) (imgs : list CanvasImage) : EditorState :=
  let sr := screensRectOf plat imgs in
  let tps := translatedPoints imgs in
  mkEditorState (selection st) (startPos st) (initialTopLeft st) (dragLocation st)
    (canvasOf imgs tps sr) imgs (devicePixelRatio st) (devicePixel st) (mousePos st)
    (magnifierAllowed st) (disableArrowKeys st) (rf_ofRect sr) (handlePositions st)
    (handleRadius st) (penWidth st).

(** *** [SelectionEditor::acceptSelection] *)

(** The environment the function reads: the windowing platform,
    [qGuiApp->devicePixelRatio()] and the "remember region: Always" setting. *)
Record Env := mkEnv { platform : Platform; appDevicePixelRatio : Q; rememberAlways : bool }.

(** An image handed to [grabDone]: either an image as the code obtains it,
    or the [output] image painted by the Wayland branch: its size, its ratio
    and the [painter.drawImage(targetRect, image)] calls, in order, onto a
    black fill. *)
Inductive GrabImage :=
  | Native (img : QImage)
  | Painted (size : QSize) (dpr : Q) (draws : list (QRect * QImage)).

Inductive Effect :=
  | SetCropRegion (r : QRect)
  | CropCanvas (r : QRectF)
  | GrabDone (g : GrabImage).

(** [QRectF::toAlignedRect]. *)
Definition rf_toAlignedRect (r : QRectF) : QRect :=
  let xmin := Qfloor (xp r) in let xmax := Qceiling (xp r + w r) in
  let ymin := Qfloor (yp r) in let ymax := Qceiling (yp r + h r) in
  QRect_xywh xmin ymin (xmax - xmin) (ymax - ymin).

(** The loop of the Wayland branch: [inl img] when the single-screen short
    path returns, [inr draws] otherwise. *)
Fixpoint waylandPaint (maxDpr : Q) (selectionRect : QRect) (selectionSize : QSize)
  (screens : list CanvasImage) (draws : list (QRect * QImage)) : QImage + list (QRect * QImage) :=
  match screens with
  | [] => inr draws
  | it :: rest =>
      let screenRect := rf_toRect (ci_rect it) in
      if rect_intersects selectionRect screenRect then
        let pos := rect_topLeft screenRect in
        let dpr := img_dpr (ci_image it) in
        let intersected := rect_intersected screenRect selectionRect in
        let pixelOnScreenIntersected :=
          rect_setHeight
            (rect_setWidth (rect_moveTopLeft QRect_null (point_mul (point_sub (rect_topLeft intersected) pos) dpr))
                           (qtrunc (inject_Z (rect_width intersected) * dpr)))
            (qtrunc (inject_Z (rect_height intersected) * dpr)) in
        let screenOutput := img_copy (ci_image it) pixelOnScreenIntersected in
        if size_eqb (rect_size intersected) selectionSize then
          inl (img_setDevicePixelRatio screenOutput dpr)
        else
          let target :=
            rect_setSize
              (rect_moveTopLeft intersected
                 (point_mul (point_sub (rect_topLeft intersected) (rect_topLeft selectionRect)) maxDpr))
              (size_mul (rect_size intersected) maxDpr) in
          waylandPaint maxDpr selectionRect selectionSize rest (draws ++ [(target, screenOutput)])
      else waylandPaint maxDpr selectionRect selectionSize rest draws
  end.

Definition acceptSelection (env : Env) (st : EditorState) : bool * list Effect * EditorState :=
  match screenImages st with
  | [] => (false, [], st)
  | _ =>
    let selectionRect := rf_normalized (selection st) in
    let eff1 := if rememberAlways env then [SetCropRegion (rf_toAlignedRect selectionRect)] else [] in
    let selectionRect := if rf_isEmpty selectionRect then screensRect st else selectionRect in
    let eff2 := eff1 ++ [CropCanvas selectionRect] in
    match platform env with
    | X11 =>
        let img := img_setDevicePixelRatio (image st) (appDevicePixelRatio env) in
        let st' := mkEditorState (selection st) (startPos st) (initialTopLeft st) (dragLocation st)
                     img (screenImages st) (devicePixelRatio st) (devicePixel st) (mousePos st)
                     (magnifierAllowed st) (disableArrowKeys st) (screensRect st) (handlePositions st)
                     (handleRadius st) (penWidth st) in
        let dpr := devicePixelRatio st in
        let sr := screensRect st in
        let imageCropRegion :=
          rf_toRect (rectClipped (mkQRectF (xp selectionRect * dpr) (yp selectionRect * dpr)
                                           (w selectionRect * dpr) (h selectionRect * dpr))
                                 (mkQRectF (xp sr * dpr) (yp sr * dpr) (w sr * dpr) (h sr * dpr))) in
        let out := if negb (size_eqb (rect_size imageCropRegion) (img_size img))
                   then img_copy img imageCropRegion else img in
        (true, eff2 ++ [GrabDone (Native out)], st')
    | Wayland =>
        (* QGuiApplication::devicePixelRatio() is calculated by getting the highest screen DPI *)
        let maxDpr := appDevicePixelRatio env in
        let selectionRect := rf_toRect (rf_normalized (selection st)) in
        let selectionSize := rect_size selectionRect in
        let outSize := size_mul selectionSize maxDpr in
        match waylandPaint maxDpr selectionRect selectionSize (screenImages st) [] with
        | inl screenOutput => (true, eff2 ++ [GrabDone (Native screenOutput)], st)
        | inr draws =>
            (true, eff2 ++ [GrabDone (Painted outSize (match draws with [] => 1 | _ => maxDpr end) draws)], st)
        end
    end
  end.

(** Where each handle zone sends the pointer, in the order they are tested:
    the four corners, then the four edge midpoints. *)
Definition handleLocation (n : nat) : MouseLocation.t :=
  nth n [MouseLocation.TopLeft; MouseLocation.TopRight; MouseLocation.BottomRight;
         MouseLocation.BottomLeft; MouseLocation.Top; MouseLocation.Right;
         MouseLocation.Bottom; MouseLocation.Left] MouseLocation.None.

Definition isBorderLocation (l : MouseLocation.t) : bool :=
  match l with
  | MouseLocation.Top | MouseLocation.Bottom | MouseLocation.Left | MouseLocation.Right => true
  | _ => false
  end.

Definition isInteriorOrExterior (l : MouseLocation.t) : bool :=
  match l with MouseLocation.Inside | MouseLocation.Outside => true | _ => false end.

(** ** Concrete configurations used by the examples below *)

(** A single-colour image. *)
Definition solidImage (ww hh : Z) (dpr : Q) (c : Z) : QImage := mkQImage ww hh dpr (fun _ _ => c).

(** An idle editor holding the selection [sel], with no screens yet. *)
Definition initialState (sel : QRectF) : EditorState :=
  mkEditorState sel (mkQPointF 0 0) (mkQPointF 0 0) MouseLocation.None (solidImage 0 0 1 0) []
    1 1 (mkQPointF 0 0) false false (mkQRectF 0 0 0 0) [] s_handleRadiusMouse 1.

(** Two screens side by side: A at (0,0) 1920x1080 at ratio 1 and B at
    (1920,0) 1920x1080 at ratio 2 (a 3840x2160 image). *)
Definition screenA : CanvasImage := mkCanvasImage (mkQRectF 0 0 1920 1080) (solidImage 1920 1080 1 1).
Definition screenB : CanvasImage := mkCanvasImage (mkQRectF 1920 0 1920 1080) (solidImage 3840 2160 2 2).

(** The editor after [setScreenImages] on Wayland with [imgs], with the
    selection [sel] and its handles computed. *)
Definition editorWith (plat : Platform) (imgs : list CanvasImage) (sel : QRectF) : EditorState :=
  setSelection (setScreenImages plat (initialState sel) imgs) sel.

(** The states after each of a sequence of pointer-move events. *)
Fixpoint moveTrace (st : EditorState) (ps : list QPointF) : list EditorState :=
  match ps with
  | [] => []
  | p :: ps' => let st' := mouseMoveEvent st p in st' :: moveTrace st' ps'
  end.

Definition wellFormed (r : QRectF) : Prop := 0 <= w r /\ 0 <= h r.

(** A selection 100.5 wide whose right edge touches the right side of a
    1920x1080 screen at ratio 1. *)
Definition arrowState : EditorState :=
  editorWith Wayland [screenA] (mkQRectF (3639#2) 100 (201#2) 100).

(** Mixed ratios: a ratio-2 screen at (0,0), 1920x1080 logical (a
    3840x2160 image, colour 2), then a ratio-1 screen at (1920,0)
    (colour 1). *)
Definition mixedScreens : list CanvasImage :=
  [mkCanvasImage (mkQRectF 0 0 1920 1080) (solidImage 3840 2160 2 2);
   mkCanvasImage (mkQRectF 1920 0 1920 1080) (solidImage 1920 1080 1 1)].

(** The effects of a commit, and the size of the image it hands to
    [grabDone], if any. *)
Definition acceptEffects (env : Env) (st : EditorState) : list Effect :=
  snd (fst (acceptSelection env st)).

Definition grabbedSize (effs : list Effect) : option QSize :=
  fold_left (fun acc e => match e with
                          | GrabDone (Native img) => Some (img_size img)
                          | GrabDone (Painted size _ _) => Some size
                          | _ => acc
                          end) effs None.

(** A zero-area selection at (500,500) over the single 1920x1080 screen. *)
Definition emptySelState (plat : Platform) : EditorState :=
  editorWith plat [screenA] (mkQRectF 500 500 0 0).

(** The draw the Wayland loop makes from a screen [ci] meeting the rounded
    selection: the target is the intersection moved to
    [(intersected - selection.topLeft) * maxDpr] with its size times
    [maxDpr], and the image is the copy of the screen's image at
    [(intersected - screen.topLeft) * dpr] with its size times the screen's
    [dpr]. *)
Definition paintedDraw (maxDpr : Q) (selRect : QRect) (ci : CanvasImage) : QRect * QImage :=
  let screenRect := rf_toRect (ci_rect ci) in
  let inter := rect_intersected screenRect selRect in
  let dpr := img_dpr (ci_image ci) in
  (rect_setSize
     (rect_moveTopLeft inter (point_mul (point_sub (rect_topLeft inter) (rect_topLeft selRect)) maxDpr))
     (size_mul (rect_size inter) maxDpr),
   img_copy (ci_image ci)
     (rect_setHeight
        (rect_setWidth
           (rect_moveTopLeft QRect_null (point_mul (point_sub (rect_topLeft inter) (rect_topLeft screenRect)) dpr))
           (qtrunc (inject_Z (rect_width inter) * dpr)))
        (qtrunc (inject_Z (rect_height inter) * dpr)))).

(** The screens the rounded selection meets, in list order. *)
Definition intersectingScreens (selRect : QRect) (screens : list CanvasImage) : list CanvasImage :=
  filter (fun ci => rect_intersects selRect (rf_toRect (ci_rect ci))) screens.

(** Three screens in a row: two at ratio 1, then one at ratio 2. *)
Definition threeScreens : list CanvasImage :=
  [screenA;
   mkCanvasImage (mkQRectF 1920 0 1920 1080) (solidImage 1920 1080 1 3);
   mkCanvasImage (mkQRectF 3840 0 1920 1080) (solidImage 3840 2160 2 2)].

(** The rounded selection the Wayland branch works with. *)
Definition waylandSelRect (st : EditorState) : QRect := rf_toRect (rf_normalized (selection st)).


(** The last image handed to [grabDone]. *)
Definition grabbedImage (effs : list Effect) : option GrabImage :=
  fold_left (fun acc e => match e with GrabDone g => Some g | _ => acc end) effs None.


(** Screen [ci] holds the whole rounded selection [r]. *)
Definition holdsSelection (r : QRect) (ci : CanvasImage) : bool :=
  rect_intersects r (rf_toRect (ci_rect ci)) &&
  size_eqb (rect_size (rect_intersected (rf_toRect (ci_rect ci)) r)) (rect_size r).



(** ** Further event handlers of [SelectionEditor] *)

(** [handlesRect] as [updateHandlePositions] sets it:
    [QRectF(handlePositions[0] - radiusOffset, handlePositions[2] + radiusOffset)]. *)
Definition handlesRect (hp : list QPointF) (handleRadius : Q) : QRectF :=
  let tl := nthPoint hp 0 in
  let br := nthPoint hp 2 in
  mkQRectF (fx tl - handleRadius) (fy tl - handleRadius)
           (fx br + handleRadius - (fx tl - handleRadius))
           (fy br + handleRadius - (fy tl - handleRadius)).

Definition isCornerLocation (l : MouseLocation.t) : bool :=
  match l with
  | MouseLocation.TopLeft | MouseLocation.TopRight
  | MouseLocation.BottomRight | MouseLocation.BottomLeft => true
  | _ => false
  end.

(** The end of [mouseReleaseEvent]: [dragLocation] back to [None] and the
    magnifier off. *)
Definition releaseFinish (st : EditorState) : EditorState :=
  st_with st (selection st) (startPos st) (initialTopLeft st) MouseLocation.None (mousePos st)
    false (disableArrowKeys st) (handlePositions st) (handleRadius st).

(** [SelectionEditor::mouseReleaseEvent]; [releaseToCapture] is
    [Settings::useReleaseToCapture()]. Returns the effects and the state. *)
Definition mouseReleaseEvent (env : Env) (releaseToCapture : bool) (st : EditorState) (button : Button)
  : list Effect * EditorState :=
  match button with
  | LeftButton | RightButton =>
      match dragLocation st with
      | MouseLocation.Outside =>
          if releaseToCapture then
            let '(_, effs, st') := acceptSelection env st in (effs, st')
          else
            ([], releaseFinish (st_with st (selection st) (startPos st) (initialTopLeft st) (dragLocation st)
                                  (mousePos st) (magnifierAllowed st) false (handlePositions st) (handleRadius st)))
      | _ =>
          ([], releaseFinish (st_with st (selection st) (startPos st) (initialTopLeft st) (dragLocation st)
                                (mousePos st) (magnifierAllowed st) false (handlePositions st) (handleRadius st)))
      end
  | OtherButton => ([], releaseFinish st)
  end.

(** [SelectionEditor::mouseDoubleClickEvent]: [d->selection->contains(d->mousePos)],
    the selection's rectangle tested with [QRectF::contains]. *)
Definition mouseDoubleClickEvent (env : Env) (st : EditorState) (button : Button) : list Effect * EditorState :=
  match button with
  | LeftButton =>
      if rf_containsPoint (selection st) (mousePos st) then
        let '(_, effs, st') := acceptSelection env st in (effs, st')
      else ([], st)
  | _ => ([], st)
  end.

Inductive Key := Key_Return | Key_Enter | Key_Arrow (k : ArrowKey) | Key_Other.

(** [SelectionEditor::keyPressEvent]; [toggleMagnifier] is threaded
    through. Returns the effects, the state and [toggleMagnifier]. *)
Definition keyPressEvent (env : Env) (toggleMagnifier : bool) (st : EditorState) (shift alt : bool) (key : Key)
  : list Effect * EditorState * bool :=
  let toggle := if shift then true else toggleMagnifier in
  match key with
  | Key_Return | Key_Enter => let '(_, effs, st') := acceptSelection env st in (effs, st', toggle)
  | Key_Arrow k => ([], handleArrowKey st shift alt k, toggle)
  | Key_Other => ([], st, toggle)
  end.

(** Whether [painter.drawImage(tp - sr.topLeft(), image)] covers canvas
    pixel [(x, y)]. *)
Definition coversAt (sr : QRect) (ci : CanvasImage) (tp : QPoint) (x y : Z) : bool :=
  let p := point_sub tp (rect_topLeft sr) in
  let sx := (x - ix p)%Z in let sy := (y - iy p)%Z in
  ((0 <=? sx) && (sx <? img_w (ci_image ci)) && (0 <=? sy) && (sy <? img_h (ci_image ci)))%Z.

(** The last screen of the drawing order covering pixel [(x, y)]. *)
Fixpoint lastCover (sr : QRect) (l : list (CanvasImage * QPoint)) (x y : Z) : option (CanvasImage * QPoint) :=
  match l with
  | [] => None
  | (ci, tp) :: l' =>
      match lastCover sr l' x y with
      | Some c => Some c
      | None => if coversAt sr ci tp x y then Some (ci, tp) else None
      end
  end.

Definition rect_containsRect (a b : QRect) : Prop :=
  (x1 a <= x1 b /\ x2 b <= x2 a /\ y1 a <= y1 b /\ y2 b <= y2 a)%Z.

(** ** [SpectacleCore] *)

(** [Settings::rememberLastRectangularRegion()]: [Never], [Always], or the
    remaining setting (remember until Spectacle is closed). *)
Inductive RememberRegion := RememberNever | RememberAlways | RememberUntilClosed.

(** The selection part of the [newScreensScreenshotTaken] handler:
    [setRect({})] for [Never], [setRect(Settings::cropRegion())] for
    [Always], otherwise the selection is left as it is. *)
Definition restoreCropRegion (remember : RememberRegion) (cropRegion : QRect) (st : EditorState) : EditorState :=
  match remember with
  | RememberNever => setSelection st (mkQRectF 0 0 0 0)
  | RememberAlways => setSelection st (rf_ofRect cropRegion)
  | RememberUntilClosed => st
  end.

(** [SpectacleCore::captureTimeRemaining], from the delay animation's
    [totalDuration()], [currentTime()] and whether its state is [Stopped]. *)
Definition captureTimeRemaining (totalDuration currentTime : Z) (stopped : bool) : Z :=
  if (totalDuration <? currentTime)%Z || stopped then 0%Z else (totalDuration - currentTime)%Z.

(** ** [QuickEditor] (integer [QRect] selection) *)

(** [QRect::moveTop/moveLeft/moveBottom/moveRight], [setBottom], [setRight]. *)
Definition rect_moveTop (r : QRect) (t : Z) : QRect := mkQRect (x1 r) t (x2 r) (y2 r + (t - y1 r)).
Definition rect_moveLeft (r : QRect) (l : Z) : QRect := mkQRect l (y1 r) (x2 r + (l - x1 r)) (y2 r).
Definition rect_moveBottom (r : QRect) (b : Z) : QRect := mkQRect (x1 r) (y1 r + (b - y2 r)) (x2 r) b.
Definition rect_moveRight (r : QRect) (rr : Z) : QRect := mkQRect (x1 r + (rr - x2 r)) (y1 r) rr (y2 r).
Definition rect_setBottom (r : QRect) (b : Z) : QRect := mkQRect (x1 r) (y1 r) (x2 r) b.
Definition rect_setRight (r : QRect) (rr : Z) : QRect := mkQRect (x1 r) (y1 r) rr (y2 r).

(** [QRect::normalized()] (Qt 5). *)
Definition rect_normalized (r : QRect) : QRect :=
  let '(nx1, nx2) := if (x2 r <? x1 r - 1)%Z then (x2 r + 1, x1 r - 1)%Z else (x1 r, x2 r) in
  let '(ny1, ny2) := if (y2 r <? y1 r - 1)%Z then (y2 r + 1, y1 r - 1)%Z else (y1 r, y2 r) in
  mkQRect nx1 ny1 nx2 ny2.

(** [QRect::contains(const QPoint &p)] (not proper). *)
Definition rect_containsPoint (r : QRect) (p : QPoint) : bool :=
  ((rect_l r <=? ix p) && (ix p <=? rect_r r) && (rect_t r <=? iy p) && (iy p <=? rect_b r))%Z.

(** [QPointF::toPoint()]. *)
Definition pf_toPoint (p : QPointF) : QPoint := mkQPoint (qRound (fx p)) (qRound (fy p)).

(** [qMin] on [int]. *)
Definition zMin (a b : Z) : Z := if (a <? b)%Z then a else b.

(** The class's header is not among the sources: the members' types are
    read off their uses ([mSelection] is handed to [QRect::intersected], so
    it is a [QRect]; [devicePixelRatio] and [devicePixelRatioI] are
    [qreal]s; [mHandlePositions] holds [QPointF]s; [mHandleRadius] is one of
    the [int] radii). *)
Module QuickEditor.

Module MouseState.
Inductive t := None | Inside | Outside | TopLeft | Top | TopRight | Right
             | BottomRight | Bottom | BottomLeft | Left.
End MouseState.

(** An entry of [mScreenToDpr] (in the map's order) with the screen's
    geometry and its image [mImages.value(screen)]. *)
Record ScreenEntry := mkScreenEntry { se_geometry : QRect; se_dpr : Q; se_image : QImage }.

Record State := mkState {
  mSelection : QRect;
  devicePixelRatio : Q;
  devicePixelRatioI : Q;
  mDisableArrowKeys : bool;
  mMouseDragState : MouseState.t;
  mReleaseToCapture : bool;
  mToggleMagnifier : bool;
  mPixmap : QImage;
  mScreenToDpr : list ScreenEntry;
  mHandlePositions : list QPointF;
  mHandleRadius : Z;
  widgetWidth : Z;   (* [width()] *)
  widgetHeight : Z   (* [height()] *)
}.

Definition withSelection (st : State) (r : QRect) : State :=
  mkState r (devicePixelRatio st) (devicePixelRatioI st) (mDisableArrowKeys st) (mMouseDragState st)
    (mReleaseToCapture st) (mToggleMagnifier st) (mPixmap st) (mScreenToDpr st) (mHandlePositions st)
    (mHandleRadius st) (widgetWidth st) (widgetHeight st).

Definition withFlags (st : State) (dak : bool) (ms : MouseState.t) (toggle : bool) : State :=
  mkState (mSelection st) (devicePixelRatio st) (devicePixelRatioI st) dak ms
    (mReleaseToCapture st) toggle (mPixmap st) (mScreenToDpr st) (mHandlePositions st)
    (mHandleRadius st) (widgetWidth st) (widgetHeight st).

(** What [grabDone] receives: a pixmap as obtained, or the Wayland
    [output] pixmap of the given size filled, in order, by
    [painter.fillRect(target, brush)] with the brush of [screenOutput]
    scaled by [dprI]. *)
Inductive Grab :=
  | GNative (img : QImage)
  | GFilled (size : QSize) (fills : list (QRect * QImage * Q)).

Inductive Effect :=
  | SetCropRegion (region : list Z)
  | GrabDone (g : Grab)
  | GrabCancelled.

(** [maxDpr] over [QGuiApplication::screens()]. *)
Definition maxDprOf (screenDprs : list Q) : Q :=
  fold_left (fun m d => if Qle_bool d m then m else d) screenDprs 1.

(** The loop over [mScreenToDpr] of the Wayland branch: [inl] when the
    single-screen short path returns, [inr fills] otherwise. *)
Fixpoint waylandFill (maxDpr : Q) (sel : QRect) (screens : list ScreenEntry) (fills : list (QRect * QImage * Q))
  : QImage + list (QRect * QImage * Q) :=
  match screens with
  | [] => inr fills
  | e :: rest =>
      let screenRect := se_geometry e in
      if rect_intersects sel screenRect then
        let pos := rect_topLeft screenRect in
        let dpr := se_dpr e in
        let intersected := rect_intersected screenRect sel in
        let pixelOnScreenIntersected :=
          rect_setHeight
            (rect_setWidth (rect_moveTopLeft QRect_null (point_mul (point_sub (rect_topLeft intersected) pos) dpr))
                           (qtrunc (inject_Z (rect_width intersected) * dpr)))
            (qtrunc (inject_Z (rect_height intersected) * dpr)) in
        let screenOutput := img_copy (se_image e) pixelOnScreenIntersected in
        if size_eqb (rect_size intersected) (rect_size sel) then inl screenOutput
        else
          let dprI := maxDpr / dpr in
          let moved := rect_moveTopLeft intersected
                         (point_mul (point_sub (rect_topLeft intersected) (rect_topLeft sel)) maxDpr) in
          let target := rect_setSize moved (size_mul (rect_size moved) maxDpr) in
          waylandFill maxDpr sel rest (fills ++ [(target, screenOutput, dprI)])
      else waylandFill maxDpr sel rest fills
  end.

(** [QuickEditor::acceptSelection]; [screenDprs] are the ratios of
    [QGuiApplication::screens()]. *)
Definition acceptSelection (plat : Platform) (screenDprs : list Q) (st : State) : list Effect :=
  let sel := mSelection st in
  if rect_isEmpty sel then []
  else
    let dpr := devicePixelRatio st in
    let scaledCropRegion :=
      QRect_xywh (qRound (inject_Z (x1 sel) * dpr)) (qRound (inject_Z (y1 sel) * dpr))
                 (qRound (inject_Z (rect_width sel) * dpr)) (qRound (inject_Z (rect_height sel) * dpr)) in
    SetCropRegion [x1 scaledCropRegion; y1 scaledCropRegion;
                   rect_width scaledCropRegion; rect_height scaledCropRegion] ::
    match plat with
    | X11 => [GrabDone (GNative (pixmap_copy (mPixmap st) scaledCropRegion))]
    | Wayland =>
        let maxDpr := maxDprOf screenDprs in
        match waylandFill maxDpr sel (mScreenToDpr st) [] with
        | inl screenOutput => [GrabDone (GNative screenOutput)]
        | inr fills => [GrabDone (GFilled (size_mul (rect_size sel) maxDpr) fills)]
        end
    end.

(** The selection restored by the constructor from [Settings::cropRegion()]
    when [rememberLastRectangularRegion()] is not [Never]: [QRect(x * devicePixelRatioI, ...)]
    with each [qreal] converted to [int], cut to [rect()]; an empty saved
    region leaves [mSelection] as it is. *)
Definition restoreSelection (remember : RememberRegion) (savedRect : list Z) (dprI : Q) (widgetW widgetH : Z)
  (current : QRect) : QRect :=
  match remember with RememberNever => current | _ =>
  let cropRegion := QRect_xywh (nth 0 savedRect 0%Z) (nth 1 savedRect 0%Z) (nth 2 savedRect 0%Z) (nth 3 savedRect 0%Z) in
  if rect_isEmpty cropRegion then current
  else rect_intersected
         (QRect_xywh (qtrunc (inject_Z (x1 cropRegion) * dprI)) (qtrunc (inject_Z (y1 cropRegion) * dprI))
                     (qtrunc (inject_Z (rect_width cropRegion) * dprI))
                     (qtrunc (inject_Z (rect_height cropRegion) * dprI)))
         (QRect_xywh 0 0 widgetW widgetH)
  end.

Inductive Key := Key_Escape | Key_Return | Key_Enter | Key_Arrow (k : ArrowKey) | Key_Other.

(** The arrow-key cases of [QuickEditor::keyPressEvent] (arrow keys
    enabled): the new [mSelection]. *)
Definition arrowKey (st : State) (shift alt : bool) (k : ArrowKey) : QRect :=
  let sel := mSelection st in
  let dpr := devicePixelRatio st in
  let dprI := devicePixelRatioI st in
  match k with
  | Key_Up =>
      if alt then
        rect_normalized
          (if shift then let newBottom := (y2 sel - 1)%Z in rect_setBottom sel (if (newBottom <? 0)%Z then 0%Z else newBottom)
           else let newScaledBottom := inject_Z (y2 sel) * dpr - 15 in
                rect_setBottom sel (qRound (dprI * (if Qle_bool 0 newScaledBottom then newScaledBottom else 0))))
      else if shift then let newTop := (y1 sel - 1)%Z in rect_moveTop sel (if (newTop <? 0)%Z then 0%Z else newTop)
      else let newScaledTop := inject_Z (y1 sel) * dpr - 15 in
           rect_moveTop sel (qRound (dprI * (if Qle_bool 0 newScaledTop then newScaledTop else 0)))
  | Key_Left =>
      if alt then
        rect_normalized
          (if shift then let newRight := (x2 sel - 1)%Z in rect_setRight sel (if (newRight <? 0)%Z then 0%Z else newRight)
           else let newScaledRight := inject_Z (x2 sel) * dpr - 15 in
                rect_setRight sel (qRound (dprI * (if Qle_bool 0 newScaledRight then newScaledRight else 0))))
      else if shift then let newLeft := (x1 sel - 1)%Z in rect_moveLeft sel (if (newLeft <? 0)%Z then 0%Z else newLeft)
      else let newScaledLeft := inject_Z (x1 sel) * dpr - 15 in
           rect_moveLeft sel (qRound (dprI * (if Qle_bool 0 newScaledLeft then newScaledLeft else 0)))
  | Key_Down =>
      let newBottom := (y2 sel + 1)%Z in
      let newScaledBottom := inject_Z (y2 sel) * dpr + 15 in
      let scaledHeight := inject_Z (widgetHeight st) * dpr in
      if alt then
        rect_normalized
          (if shift then rect_setBottom sel (zMin (widgetHeight st) newBottom)
           else rect_setBottom sel (qRound (dprI * qMin scaledHeight newScaledBottom)))
      else if shift then rect_moveBottom sel (zMin (widgetHeight st) newBottom)
      else rect_moveBottom sel (qRound (dprI * qMin scaledHeight newScaledBottom))
  | Key_Right =>
      let newRight := (x2 sel + 1)%Z in
      let newScaledRight := inject_Z (x2 sel) * dpr + 15 in
      let scaledWidth := inject_Z (widgetWidth st) * dpr in
      if alt then
        rect_normalized
          (if shift then rect_setRight sel (zMin (widgetWidth st) newRight)
           else rect_setRight sel (qRound (dprI * qMin scaledWidth newScaledRight)))
      else if shift then rect_moveRight sel (zMin (widgetWidth st) newRight)
      else rect_moveRight sel (qRound (dprI * qMin scaledWidth newScaledRight))
  end.

(** [QuickEditor::keyPressEvent]: the effects and the new state. *)
Definition keyPressEvent (plat : Platform) (screenDprs : list Q) (st : State) (shift alt : bool) (key : Key)
  : list Effect * State :=
  let st := if shift then withFlags st (mDisableArrowKeys st) (mMouseDragState st) true else st in
  match key with
  | Key_Escape => ([GrabCancelled], st)
  | Key_Return | Key_Enter => (acceptSelection plat screenDprs st, st)
  | Key_Arrow k => if mDisableArrowKeys st then ([], st) else ([], withSelection st (arrowKey st shift alt k))
  | Key_Other => ([], st)
  end.

(** [QuickEditor::mouseReleaseEvent]. *)
Definition mouseReleaseEvent (plat : Platform) (screenDprs : list Q) (st : State) (button : Button)
  : list Effect * State :=
  let finish st := withFlags st (mDisableArrowKeys st) MouseState.None (mToggleMagnifier st) in
  match button with
  | LeftButton =>
      match mMouseDragState st with
      | MouseState.Outside =>
          if mReleaseToCapture st then (acceptSelection plat screenDprs st, st)
          else ([], finish (withFlags st false (mMouseDragState st) (mToggleMagnifier st)))
      | _ => ([], finish (withFlags st false (mMouseDragState st) (mToggleMagnifier st)))
      end
  | RightButton =>
      ([], finish (withSelection st (rect_setHeight (rect_setWidth (mSelection st) 0) 0)))
  | OtherButton => ([], finish st)
  end.

(** [QuickEditor::mouseDoubleClickEvent] at the event position [pos]. *)
Definition mouseDoubleClickEvent (plat : Platform) (screenDprs : list Q) (st : State) (button : Button) (pos : QPoint)
  : list Effect :=
  match button with
  | LeftButton => if rect_containsPoint (mSelection st) pos then acceptSelection plat screenDprs st else []
  | _ => []
  end.

(** [isPointInsideCircle], with [qPow(v, 2) = v * v]. *)
Definition isPointInsideCircle (circleCenter : QPointF) (radius : Q) (point : QPointF) : bool :=
  Qle_bool ((fx point - fx circleCenter) * (fx point - fx circleCenter)
            + (fy point - fy circleCenter) * (fy point - fy circleCenter)) (radius * radius).

Definition inRange (low high value : Q) : bool := Qle_bool low value && Qle_bool value high.
Definition withinThreshold (offset threshold : Q) : bool := Qle_bool (qAbs offset) threshold.

(** [QuickEditor::mouseLocation]: the handles are tested with the radius
    [mHandleRadius * increaseDragAreaFactor], the border with
    [borderDragAreaSize = 10] when the selection is at least 100 x 100. *)
Definition mouseLocation (st : State) (pos : QPointF) : MouseState.t :=
  let radius := inject_Z (mHandleRadius st) * 2 in
  let inCircle n := isPointInsideCircle (nthPoint (mHandlePositions st) n) radius pos in
  let sel := mSelection st in
  let sx := inject_Z (x1 sel) in let sy := inject_Z (y1 sel) in
  let sw := inject_Z (rect_width sel) in let sh := inject_Z (rect_height sel) in
  let inside := if rect_containsPoint sel (pf_toPoint pos) then MouseState.Inside else MouseState.Outside in
  let rows :=
    if inRange sy (sy + sh) (fy pos) then
      if withinThreshold (fx pos - sx) 10 then MouseState.Left
      else if withinThreshold (fx pos - sx - sw) 10 then MouseState.Right
      else inside
    else inside in
  if inCircle 0%nat then MouseState.TopLeft
  else if inCircle 1%nat then MouseState.TopRight
  else if inCircle 2%nat then MouseState.BottomRight
  else if inCircle 3%nat then MouseState.BottomLeft
  else if inCircle 4%nat then MouseState.Top
  else if inCircle 5%nat then MouseState.Right
  else if inCircle 6%nat then MouseState.Bottom
  else if inCircle 7%nat then MouseState.Left
  else if (100 <=? rect_width sel)%Z && (100 <=? rect_height sel)%Z then
    if inRange sx (sx + sw) (fx pos) then
      if withinThreshold (fy pos - sy) 10 then MouseState.Top
      else if withinThreshold (fy pos - sy - sh) 10 then MouseState.Bottom
      else rows
    else rows
  else inside.

(** [QMap] as an association list in the map's key order. *)
Definition point_eqb (a b : QPoint) : bool := (Z.eqb (ix a) (ix b) && Z.eqb (iy a) (iy b))%Z.

Fixpoint mapValue (m : list (QPoint * QPoint)) (k : QPoint) : QPoint :=
  match m with
  | [] => mkQPoint 0 0
  | (k', v) :: m' => if point_eqb k k' then v else mapValue m' k
  end.

(** [QMap::insert]: replaces the value of a present key; a new key is
    added after the others (every key is inserted in ascending order). *)
Fixpoint mapInsert (m : list (QPoint * QPoint)) (k v : QPoint) : list (QPoint * QPoint) :=
  match m with
  | [] => [(k, v)]
  | (k', v') :: m' => if point_eqb k k' then (k', v) :: m' else (k', v') :: mapInsert m' k v
  end.

(** [outputsRect.constFind(p)] to [constEnd()]. *)
Fixpoint fromKey {V : Type} (m : list (QPoint * V)) (p : QPoint) : list (QPoint * V) :=
  match m with
  | [] => []
  | (k, v) :: m' => if point_eqb k p then m else fromKey m' p
  end.

(** [QuickEditor::computeCoordinatesAfterScaling]. *)
Definition computeCoordinatesAfterScaling (outputsRect : list (QPoint * (Q * QSize))) : list (QPoint * QPoint) :=
  let translationMap := fold_left (fun m '(k, _) => mapInsert m k k) outputsRect [] in
  fold_left
    (fun translationMap '(p, (dpr, size)) =>
       if negb (qFuzzyCompare dpr 1) then
         let newWidth := sw size in
         let newHeight := sh size in
         let deltaX := (newWidth - sw size)%Z in
         let deltaY := (newHeight - sh size)%Z in
         fold_left
           (fun translationMap '(point, _) =>
              let finalPoint := mapValue translationMap point in
              let fx' := if (newWidth + ix p - deltaX <=? ix point)%Z then (ix finalPoint + deltaX)%Z else ix finalPoint in
              let fy' := if (newHeight + iy p - deltaY <=? iy point)%Z then (iy finalPoint + deltaY)%Z else iy finalPoint in
              mapInsert translationMap point (mkQPoint fx' fy'))
           (fromKey outputsRect p) translationMap
       else translationMap)
    outputsRect translationMap.

End QuickEditor.

(** Sample inputs: an editor on screen A with the selection (100,100
    100x100), a sequence of pointer positions, and a [QuickEditor] at ratio
    2 with the selection (100,100 200x150) and handles on its corners and
    midpoints. *)
Definition sampleEditor : EditorState := editorWith Wayland [screenA] (mkQRectF 100 100 100 100).
Definition sampleMoves : list QPointF := [mkQPointF 40 60; mkQPointF 300 250; mkQPointF 2000 2000].
Definition sampleQuick : QuickEditor.State :=
  QuickEditor.mkState (mkQRect 100 100 299 249) 2 (1#2) false QuickEditor.MouseState.None true false
    (solidImage 3840 2160 2 0) []
    [mkQPointF 100 100; mkQPointF 300 100; mkQPointF 300 250; mkQPointF 100 250;
     mkQPointF 200 100; mkQPointF 300 175; mkQPointF 200 250; mkQPointF 100 175]
    9 1920 1080.

(** A translation map sends each of its keys to itself. *)
Definition identityMap (tm : list (QPoint * QPoint)) : Prop := forall k v, In (k, v) tm -> v = k.

(* PROPERTIES *)

(** * Properties *)

Lemma qRound_examples :
  (qRound (19#2) = 10 /\ qRound (-(5#2)) = -2 /\ qRound (-(7#2)) = -3 /\ qRound 3 = 3)%Z.
Proof. vm_compute. repeat split. Qed.

(** ** The pointer location classifier *)

(** C8: the classifier never yields [None]; the first handle zone, in
    corner-then-edge order, that contains the pointer decides the result;
    a pointer in no handle zone gets a border, [Inside] or [Outside], never
    a corner. *)
Theorem mouseLocation_precedence (st : EditorState) (pos : QPointF) :
  mouseLocation st pos <> MouseLocation.None /\
  (forall n, (n < 8)%nat -> inHandleZone st pos n = true ->
     (forall m, (m < n)%nat -> inHandleZone st pos m = false) ->
     mouseLocation st pos = handleLocation n) /\
  ((forall n, (n < 8)%nat -> inHandleZone st pos n = false) ->
     isBorderLocation (mouseLocation st pos) || isInteriorOrExterior (mouseLocation st pos) = true).
Proof.
  split; [|split].
  - unfold mouseLocation.
    repeat match goal with |- context [if ?c then _ else _] => destruct c end; discriminate.
  - intros n Hn Hin Hbefore.
    unfold mouseLocation.
    do 8 (destruct n as [|n]; [ repeat (rewrite Hbefore by lia); rewrite Hin; reflexivity |]).
    lia.
  - intros Hnone. unfold mouseLocation.
    rewrite !Hnone by lia.
    repeat match goal with |- context [if ?c then _ else _] => destruct c end; reflexivity.
Qed.

(** Witness of C8 at a concrete pointer on the top-left handle. *)
Lemma mouseLocation_precedence_witness :
  inHandleZone (editorWith Wayland [screenA] (mkQRectF 100 100 100 100)) (mkQPointF 102 101) 0 = true /\
  mouseLocation (editorWith Wayland [screenA] (mkQRectF 100 100 100 100)) (mkQPointF 102 101)
  = MouseLocation.TopLeft.
Proof.
  split; [vm_compute; reflexivity|].
  apply (proj1 (proj2 (mouseLocation_precedence
                         (editorWith Wayland [screenA] (mkQRectF 100 100 100 100)) (mkQPointF 102 101))) 0%nat).
  - lia.
  - vm_compute; reflexivity.
  - intros m Hm; lia.
Defined.

(** C9 (as stated, refuted): with a 100x100 selection, whose minimum
    dimension does not exceed 100, a pointer in no handle zone still gets
    the border location [Top]. *)
Lemma mouseLocation_threshold_counterexample :
  let st := editorWith Wayland [screenA] (mkQRectF 100 100 100 100) in
  let pos := mkQPointF 125 105 in
  qMin (w (rf_normalized (selection st))) (h (rf_normalized (selection st))) == 100 /\
  (forall n, (n < 8)%nat -> inHandleZone st pos n = false) /\
  mouseLocation st pos = MouseLocation.Top.
Proof.
  intros st pos. split; [vm_compute; reflexivity|]. split; [|vm_compute; reflexivity].
  intros n Hn.
  do 8 (destruct n as [|n]; [vm_compute; reflexivity|]). lia.
Qed.

(** C9 (amended): for a pointer in no handle zone, a border location is
    returned only when the normalized selection is at least 100 wide and at
    least 100 high (the threshold is inclusive); otherwise the result is
    [Inside] or [Outside]. *)
Theorem mouseLocation_border_threshold (st : EditorState) (pos : QPointF) :
  (forall n, (n < 8)%nat -> inHandleZone st pos n = false) ->
  let rect := rf_normalized (selection st) in
  (isBorderLocation (mouseLocation st pos) = true -> 100 <= w rect /\ 100 <= h rect) /\
  (~ (100 <= w rect /\ 100 <= h rect) -> isInteriorOrExterior (mouseLocation st pos) = true).
Proof.
  intros Hnone rect.
  assert (Hsmall : ~ (100 <= w rect /\ 100 <= h rect) ->
                   isInteriorOrExterior (mouseLocation st pos) = true).
  { intros Hn. unfold mouseLocation. rewrite !Hnone by lia. fold rect.
    destruct (Qle_bool 100 (w rect)) eqn:E1, (Qle_bool 100 (h rect)) eqn:E2;
      [ exfalso; apply Hn; split; apply Qle_bool_iff; assumption | ..];
      simpl; destruct (rf_containsPoint rect pos); reflexivity. }
  split; [|exact Hsmall].
  intros Hb.
  destruct (Qle_bool 100 (w rect)) eqn:E1; destruct (Qle_bool 100 (h rect)) eqn:E2;
    try (split; apply Qle_bool_iff; assumption);
  exfalso;
  (assert (Hio : isInteriorOrExterior (mouseLocation st pos) = true)
     by (apply Hsmall; intros [H1 H2];
         apply Qle_bool_iff in H1; apply Qle_bool_iff in H2; congruence));
  destruct (mouseLocation st pos); discriminate.
Qed.

(** Witness of C9 (amended): a 50x50 selection, pointer far from the handles. *)
Lemma mouseLocation_border_threshold_witness :
  (forall n, (n < 8)%nat ->
     inHandleZone (editorWith Wayland [screenA] (mkQRectF 100 100 50 50)) (mkQPointF 500 500) n = false) /\
  isInteriorOrExterior (mouseLocation (editorWith Wayland [screenA] (mkQRectF 100 100 50 50))
                                      (mkQPointF 500 500)) = true.
Proof.
  assert (Hz : forall n, (n < 8)%nat ->
     inHandleZone (editorWith Wayland [screenA] (mkQRectF 100 100 50 50)) (mkQPointF 500 500) n = false).
  { intros n Hn. do 8 (destruct n as [|n]; [vm_compute; reflexivity|]). lia. }
  split; [exact Hz|].
  apply (proj2 (mouseLocation_border_threshold _ _ Hz)).
  vm_compute. intros [H _]. apply H. reflexivity.
Defined.

(** ** Committing with no screens *)

(** C10: with no stored screen images [acceptSelection] returns [false],
    emits nothing and leaves the state as it was; with at least one it
    returns [true]. *)
Theorem acceptSelection_screens (env : Env) (st : EditorState) :
  (screenImages st = [] -> acceptSelection env st = (false, [], st)) /\
  (screenImages st <> [] -> fst (fst (acceptSelection env st)) = true).
Proof.
  unfold acceptSelection. split.
  - intros E; rewrite E; reflexivity.
  - intros E. destruct (screenImages st) as [|c cs]; [congruence|].
    destruct (platform env); [reflexivity|].
    destruct (waylandPaint _ _ _ _ _); reflexivity.
Qed.

(** Witness of C10 on the empty screen list. *)
Lemma acceptSelection_screens_witness :
  acceptSelection (mkEnv Wayland 1 false) (initialState (mkQRectF 0 0 10 10))
  = (false, [], initialState (mkQRectF 0 0 10 10)).
Proof.
  apply (proj1 (acceptSelection_screens (mkEnv Wayland 1 false) (initialState (mkQRectF 0 0 10 10)))).
  reflexivity.
Defined.

(** ** Arithmetic of the [qreal] helpers *)

Lemma Qle_bool_false (a b : Q) : Qle_bool a b = false -> b < a.
Proof.
  intros E. apply Qnot_le_lt. intros H. apply Qle_bool_iff in H. congruence.
Qed.

Lemma qAbs_nonneg (a : Q) : 0 <= qAbs a.
Proof.
  unfold qAbs. destruct (Qle_bool 0 a) eqn:E.
  - apply Qle_bool_iff; exact E.
  - apply Qle_bool_false in E. lra.
Qed.

Lemma qMin_cases (a b : Q) : (b <= a /\ qMin a b = b) \/ (a < b /\ qMin a b = a).
Proof.
  unfold qMin. destruct (Qle_bool b a) eqn:E.
  - left. split; [apply Qle_bool_iff; exact E | reflexivity].
  - right. split; [apply Qle_bool_false; exact E | reflexivity].
Qed.

Lemma qMax_cases (a b : Q) : (b <= a /\ qMax a b = a) \/ (a < b /\ qMax a b = b).
Proof.
  unfold qMax. destruct (Qle_bool b a) eqn:E.
  - left. split; [apply Qle_bool_iff; exact E | reflexivity].
  - right. split; [apply Qle_bool_false; exact E | reflexivity].
Qed.

Ltac qminmax :=
  repeat match goal with
  | |- context [qMin ?a ?b] =>
      let H := fresh in let E := fresh in
      destruct (qMin_cases a b) as [[H E]|[H E]]; rewrite E in *; clear E
  | _ : context [qMin ?a ?b] |- _ =>
      let H := fresh in let E := fresh in
      destruct (qMin_cases a b) as [[H E]|[H E]]; rewrite E in *; clear E
  | |- context [qMax ?a ?b] =>
      let H := fresh in let E := fresh in
      destruct (qMax_cases a b) as [[H E]|[H E]]; rewrite E in *; clear E
  end.

Lemma normalized_wellFormed (r : QRectF) : wellFormed r -> rf_normalized r = r.
Proof.
  intros [Hw Hh]. unfold rf_normalized.
  apply Qle_bool_iff in Hw. rewrite Hw. apply Qle_bool_iff in Hh. rewrite Hh.
  destruct r; reflexivity.
Qed.

(** The spec-modelled [rectBounded] keeps a well-formed rectangle inside
    well-formed bounds. *)
Lemma rectBounded_within (r b : QRectF) :
  wellFormed r -> wellFormed b -> wellFormed (rectBounded r b) /\ rf_within (rectBounded r b) b.
Proof.
  intros [Hrw Hrh] [Hbw Hbh].
  assert (Hwf : wellFormed (rectBounded r b)).
  { unfold rectBounded, wellFormed; simpl. split; qminmax; lra. }
  split; [exact Hwf|].
  unfold rf_within. rewrite (normalized_wellFormed _ Hwf).
  unfold rectBounded; simpl.
  repeat split; qminmax; lra.
Qed.

(** ** Pointer drags *)

Lemma mouseMoveEvent_keeps (st : EditorState) (pos : QPointF) :
  dragLocation (mouseMoveEvent st pos) = dragLocation st /\
  devicePixel (mouseMoveEvent st pos) = devicePixel st /\
  devicePixelRatio (mouseMoveEvent st pos) = devicePixelRatio st /\
  screensRect (mouseMoveEvent st pos) = screensRect st.
Proof.
  unfold mouseMoveEvent; destruct (dragLocation st) eqn:E; cbn; rewrite ?E; repeat split.
Qed.

(** A move of the whole selection ([Inside]) sets it to [rectBounded] of a
    candidate rectangle whose size is the old one scaled by [dpr]. *)
Lemma mouseMoveEvent_inside (st : EditorState) (pos : QPointF) :
  dragLocation st = MouseLocation.Inside ->
  exists r, selection (mouseMoveEvent st pos) = rectBounded r (screensRect st) /\
            w r = w (selection st) * devicePixelRatio st /\
            h r = h (selection st) * devicePixelRatio st.
Proof.
  intros E. unfold mouseMoveEvent. rewrite E.
  eexists. split; [reflexivity|].
  cbv zeta. destruct (negb _); split; reflexivity.
Qed.

Lemma inside_wellFormed (st : EditorState) (pos : QPointF) :
  dragLocation st = MouseLocation.Inside ->
  wellFormed (selection st) -> 0 <= devicePixelRatio st -> wellFormed (screensRect st) ->
  wellFormed (selection (mouseMoveEvent st pos)) /\
  rf_within (selection (mouseMoveEvent st pos)) (screensRect st).
Proof.
  intros E [Hw Hh] Hdpr Hsr.
  destruct (mouseMoveEvent_inside st pos E) as (r & -> & Ew & Eh).
  apply rectBounded_within; [|exact Hsr].
  split; [rewrite Ew | rewrite Eh]; apply Qmult_le_0_compat; assumption.
Qed.

(** One pointer move in a drag state keeps the selection well formed: the
    axes it recomputes get [qAbs(...) + (0 or one device pixel)], the
    others are kept, and a move ([Inside]) is bounded by [rectBounded]. *)
Lemma mouseMoveEvent_wellFormed (st : EditorState) (pos : QPointF) :
  wellFormed (selection st) -> 0 <= devicePixel st -> 0 <= devicePixelRatio st ->
  wellFormed (screensRect st) -> wellFormed (selection (mouseMoveEvent st pos)).
Proof.
  intros Hwf Hdp Hdpr Hsr.
  destruct (dragLocation st) eqn:E;
    try (apply (inside_wellFormed st pos E Hwf Hdpr Hsr)).
  all: destruct Hwf as [Hw Hh].
  all: pose proof (qAbs_nonneg (fx pos - fx (startPos st))) as Ax.
  all: pose proof (qAbs_nonneg (fy pos - fy (startPos st))) as Ay.
  all: unfold mouseMoveEvent, wellFormed; rewrite E; cbn.
  all: try (destruct (Qle_bool (fx (startPos st)) (fx pos)));
       try (destruct (Qle_bool (fy (startPos st)) (fy pos))).
  all: split; lra.
Qed.

(** C6: during a drag (any state but [None]) started on a well-formed
    selection, the selection has non-negative width and height after every
    pointer-move event. *)
Theorem drag_never_inverted (st : EditorState) (ps : list QPointF) :
  dragLocation st <> MouseLocation.None ->
  wellFormed (selection st) -> 0 <= devicePixel st -> 0 <= devicePixelRatio st ->
  wellFormed (screensRect st) ->
  Forall (fun s => wellFormed (selection s)) (moveTrace st ps).
Proof.
  revert st. induction ps as [|p ps IH]; intros st Hdl Hwf Hdp Hdpr Hsr; simpl; constructor.
  - apply mouseMoveEvent_wellFormed; assumption.
  - destruct (mouseMoveEvent_keeps st p) as (E1 & E2 & E3 & E4).
    apply IH.
    + rewrite E1; exact Hdl.
    + apply mouseMoveEvent_wellFormed; assumption.
    + rewrite E2; exact Hdp.
    + rewrite E3; exact Hdpr.
    + rewrite E4; exact Hsr.
Qed.

(** Witness of C6: a corner drag from the idle state of a 100x100 selection
    after a press on its top-left handle. *)
Lemma drag_never_inverted_witness :
  Forall (fun s => wellFormed (selection s))
    (moveTrace (mousePressEvent (editorWith Wayland [screenA] (mkQRectF 100 100 100 100)) false LeftButton
                                (mkQPointF 100 100))
               [mkQPointF 300 50; mkQPointF 120 400; mkQPointF 250 250]).
Proof.
  apply drag_never_inverted; vm_compute; try discriminate; try (split; discriminate); discriminate.
Defined.

(** C7: a pointer move in the [Inside] state (moving a well-formed
    selection, [dpr >= 0]) leaves the selection inside the union of the
    screens' rectangles. *)
Theorem insideMove_within_screens (st : EditorState) (pos : QPointF) :
  dragLocation st = MouseLocation.Inside ->
  wellFormed (selection st) -> 0 <= devicePixelRatio st -> wellFormed (screensRect st) ->
  rf_within (selection (mouseMoveEvent st pos)) (screensRect st).
Proof.
  intros E Hwf Hdpr Hsr. exact (proj2 (inside_wellFormed st pos E Hwf Hdpr Hsr)).
Qed.

(** Witness of C7: dragging a 100x100 selection far past the right edge of
    a 1920x1080 screen. *)
Lemma insideMove_within_screens_witness :
  rf_within (selection (mouseMoveEvent
                          (mousePressEvent (editorWith Wayland [screenA] (mkQRectF 100 100 100 100))
                                           false LeftButton (mkQPointF 150 150))
                          (mkQPointF 5000 150)))
            (mkQRectF 0 0 1920 1080).
Proof.
  apply (insideMove_within_screens
           (mousePressEvent (editorWith Wayland [screenA] (mkQRectF 100 100 100 100))
                            false LeftButton (mkQPointF 150 150))
           (mkQPointF 5000 150));
  vm_compute; try reflexivity; try (split; discriminate); discriminate.
Defined.

(** ** Arrow keys *)

Lemma normalized_isWellFormed (r : QRectF) : wellFormed (rf_normalized r).
Proof.
  unfold rf_normalized, wellFormed.
  destruct (Qle_bool 0 (w r)) eqn:E1; [apply Qle_bool_iff in E1 | apply Qle_bool_false in E1];
  simpl; destruct (Qle_bool 0 (h r)) eqn:E2;
    [apply Qle_bool_iff in E2 | apply Qle_bool_false in E2 | apply Qle_bool_iff in E2 | apply Qle_bool_false in E2];
  simpl; split; lra.
Qed.

Lemma rectBounded_size (r b : QRectF) :
  w r <= w b -> h r <= h b -> w (rectBounded r b) == w r /\ h (rectBounded r b) == h r.
Proof. intros Hw Hh. unfold rectBounded; simpl. split; qminmax; lra. Qed.

(** Without Alt the key moves the selection (its size is kept) and the
    result goes through [rectBounded]. *)
Lemma handleArrowKey_move (st : EditorState) (shift : bool) (key : ArrowKey) :
  disableArrowKeys st = false ->
  exists r, selection (handleArrowKey st shift false key) = rectBounded r (screensRect st) /\
            w r = w (selection st) /\ h r = h (selection st).
Proof.
  intros Hd. unfold handleArrowKey. rewrite Hd.
  destruct key; eexists; (split; [reflexivity | split; reflexivity]).
Qed.

Lemma handleArrowKey_alt_normalized (st : EditorState) (shift : bool) (key : ArrowKey) :
  disableArrowKeys st = false -> key = Key_Left \/ key = Key_Up ->
  exists r, selection (handleArrowKey st shift true key) = rf_normalized r.
Proof.
  intros Hd [-> | ->]; unfold handleArrowKey; rewrite Hd; eexists; reflexivity.
Qed.

(** C5: with Alt, Right keeps the left and top edges and the height and
    sets the right edge to [devicePixel * newPos + width], where [newPos] is
    [boundsRight] of the rounded device position [left * dpr + step]; the
    result is not passed through [rectBounded]. [boundsRight] caps [newPos] at
    [realMaxX = qRound((width() - selection.width) * dpr)], which rounds a
    fractional maximum up: a selection of width 100.5 whose right edge
    touches the right side of the 1920x1080 screen (ratio 1) has
    [realMaxX = qRound(1819.5) = 1820], and Alt+Right moves its right edge
    to 1920.5, outside the combined screen bounds. *)
Theorem handleArrowKey_alt_overshoot :
  (forall (st : EditorState) (shift : bool),
     disableArrowKeys st = false ->
     let sel := selection st in
     let dpr := devicePixelRatio st in
     let step := if shift then devicePixel st else dprRound s_magnifierLargeStep dpr in
     let r := selection (handleArrowKey st shift true Key_Right) in
     xp r = xp sel /\ yp r = yp sel /\ h r = h sel /\
     rf_right r == devicePixel st * inject_Z (fst (boundsRight st (qRound (xp sel * dpr + step)) false))
                   + w sel) /\
  screensRect arrowState = mkQRectF 0 0 1920 1080 /\
  rf_within (selection arrowState) (screensRect arrowState) /\
  (inject_Z (q_width arrowState) - w (selection arrowState)) * devicePixelRatio arrowState == 3639#2 /\
  qRound ((inject_Z (q_width arrowState) - w (selection arrowState)) * devicePixelRatio arrowState) = 1820%Z /\
  fst (boundsRight arrowState
         (qRound (xp (selection arrowState) * devicePixelRatio arrowState
                  + dprRound s_magnifierLargeStep (devicePixelRatio arrowState))) false) = 1820%Z /\
  rf_right (selection (handleArrowKey arrowState false true Key_Right)) == 3841#2 /\
  ~ rf_within (selection (handleArrowKey arrowState false true Key_Right)) (screensRect arrowState).
Proof.
  split.
  - intros st shift Hd sel dpr step r. subst r. unfold handleArrowKey. rewrite Hd.
    cbn [selection setSelection st_with xp yp w h rf_setRight rf_right].
    repeat split. unfold step, sel, dpr, rf_right, rf_setRight, rf_left.
    cbn [xp yp w h]. ring.
  - split; [reflexivity|]. split; [vm_compute; repeat split; discriminate|].
    split; [vm_compute; reflexivity|]. split; [vm_compute; reflexivity|].
    split; [vm_compute; reflexivity|]. split; [vm_compute; reflexivity|].
    vm_compute. intros (_ & _ & H & _). apply H. reflexivity.
Qed.

(** ** Composition of the screens *)

Lemma shiftNext_zero (rest : list CanvasImage) (tps : list QPoint) (limX limY : Z) :
  shiftNext rest tps limX limY 0 0 = tps.
Proof.
  revert tps. induction rest as [|ci rest IH]; intros [|[x y] tps]; try reflexivity.
  simpl. rewrite IH.
  destruct (Qle_bool _ _), (Qle_bool _ _); rewrite ?Z.add_0_r; reflexivity.
Qed.

Lemma computeTranslatedPoints_id (all todo : list CanvasImage) (i : nat) (tps : list QPoint) :
  computeTranslatedPoints all todo i tps = tps.
Proof.
  revert i tps. induction todo as [|ci todo IH]; intros i tps; [reflexivity|].
  simpl. rewrite IH.
  destruct (negb _); [|reflexivity].
  rewrite !Z.sub_diag, shiftNext_zero. apply firstn_skipn.
Qed.

(** C1: the "compute coordinates after scaling" loop takes
    [newWidth = size.width()], so every [deltaX]/[deltaY] is 0 and no
    placement is ever shifted: the translated points are the screens'
    top-left corners. With a ratio-2 screen left of a ratio-1 screen, the
    first image, drawn at its native 3840x2160 size, overlaps the second on
    the canvas: the canvas pixel (2000,500) is covered by both and shows the
    second screen. *)
Theorem translatedPoints_never_shifted :
  (forall imgs, translatedPoints imgs = map screenPos imgs) /\
  let sr := screensRectOf Wayland mixedScreens in
  let tps := translatedPoints mixedScreens in
  rect_intersects (drawnRect mixedScreens tps sr 0) (drawnRect mixedScreens tps sr 1) = true /\
  drawnRect mixedScreens tps sr 0 = QRect_xywh 0 0 3840 2160 /\
  drawnRect mixedScreens tps sr 1 = QRect_xywh 1920 0 1920 1080 /\
  pixel (canvasOf mixedScreens tps sr) 2000 500 = 1%Z.
Proof.
  split.
  - intros imgs. apply computeTranslatedPoints_id.
  - vm_compute. repeat split.
Qed.

(** ** Commit *)

(** An empty committed selection is replaced by [screensRect] for the
    annotation document's crop, and the commit succeeds. *)
Lemma acceptSelection_empty_cropCanvas (env : Env) (st : EditorState) :
  screenImages st <> [] -> rf_isEmpty (rf_normalized (selection st)) = true ->
  fst (fst (acceptSelection env st)) = true /\
  In (CropCanvas (screensRect st)) (acceptEffects env st).
Proof.
  intros Hne Hemp. unfold acceptEffects, acceptSelection.
  destruct (screenImages st) as [|c cs]; [congruence|].
  rewrite Hemp.
  destruct (platform env); [|destruct (waylandPaint _ _ _ _ _)];
    (split; [reflexivity|]);
    apply in_or_app; left; apply in_or_app; right; left; reflexivity.
Qed.

(** C2: every commit of an empty selection succeeds and crops the
    annotation canvas to [screensRect]. On Wayland the grabbed image ignores
    that substitution: the branch declares a new [selectionRect] from the
    unmodified, still empty selection, so committing the zero-area selection
    (500,500,0,0) over a single 1920x1080 screen crops the annotation canvas
    to the full (0,0,1920,1080) but hands a 0x0 image to [grabDone]; on X11
    the same commit gives the full 1920x1080 image. *)
Theorem acceptSelection_empty_wayland :
  (forall env st, screenImages st <> [] -> rf_isEmpty (rf_normalized (selection st)) = true ->
     fst (fst (acceptSelection env st)) = true /\
     In (CropCanvas (screensRect st)) (acceptEffects env st)) /\
  screensRect (emptySelState Wayland) = mkQRectF 0 0 1920 1080 /\
  acceptEffects (mkEnv Wayland 1 false) (emptySelState Wayland) =
    [CropCanvas (mkQRectF 0 0 1920 1080); GrabDone (Painted (mkQSize 0 0) 1 [])] /\
  grabbedSize (acceptEffects (mkEnv Wayland 1 false) (emptySelState Wayland)) = Some (mkQSize 0 0) /\
  grabbedSize (acceptEffects (mkEnv X11 1 false) (emptySelState X11)) = Some (mkQSize 1920 1080).
Proof.
  split; [exact acceptSelection_empty_cropCanvas|].
  vm_compute. repeat split.
Qed.

Lemma waylandPaint_noShortPath (maxDpr : Q) (r : QRect) :
  forall screens acc,
  Forall (fun c => holdsSelection r c = false) screens ->
  waylandPaint maxDpr r (rect_size r) screens acc =
    inr (acc ++ map (paintedDraw maxDpr r) (intersectingScreens r screens)).
Proof.
  induction screens as [|ci rest IH]; intros acc Hs; simpl.
  - rewrite app_nil_r. reflexivity.
  - inversion Hs as [|? ? Hc Hrest]; subst.
    unfold holdsSelection in Hc.
    destruct (rect_intersects r (rf_toRect (ci_rect ci))); simpl in Hc.
    + rewrite Hc, IH by exact Hrest. rewrite <- app_assoc. reflexivity.
    + apply IH. exact Hrest.
Qed.

(** C3 (refuted): [maxDpr] is [qGuiApp->devicePixelRatio()], the highest
    ratio over all screens, not over the screens the selection meets. With
    two ratio-1 screens and a ratio-2 screen, a 100x100 selection across
    the two ratio-1 screens only gives a 200x200 image, not 100x100. *)
Lemma acceptSelection_maxDpr_counterexample :
  let st := editorWith Wayland threeScreens (mkQRectF 1900 0 100 100) in
  map (fun ci => rect_intersects (waylandSelRect st) (rf_toRect (ci_rect ci))) threeScreens = [true; true; false] /\
  map (fun ci => img_dpr (ci_image ci)) threeScreens = [1; 1; 2] /\
  rect_size (waylandSelRect st) = mkQSize 100 100 /\
  grabbedSize (acceptEffects (mkEnv Wayland 2 false) st) = Some (mkQSize 200 200).
Proof. vm_compute. repeat split. Qed.

(** C3 (amended): on Wayland, when no screen takes the single-screen short
    path (no screen meeting the rounded selection holds it whole),
    [grabDone] receives the output image of size [selectionSize * maxDpr],
    where [maxDpr] is [qGuiApp->devicePixelRatio()] (the highest ratio over
    all screens), and the draws into it are, in list order, one per screen
    meeting the selection: that screen's image copied at
    [(intersected - screen.topLeft) * dpr] with size
    [intersected.size * dpr], at its own ratio, drawn into the target
    [(intersected - selection.topLeft) * maxDpr] with size
    [intersected.size * maxDpr]. *)
Theorem acceptSelection_wayland_output (env : Env) (st : EditorState) :
  platform env = Wayland -> screenImages st <> [] ->
  let maxDpr := appDevicePixelRatio env in
  let selRect := waylandSelRect st in
  Forall (fun c => holdsSelection selRect c = false) (screenImages st) ->
  let draws := map (paintedDraw maxDpr selRect) (intersectingScreens selRect (screenImages st)) in
  grabbedImage (acceptEffects env st) =
    Some (Painted (size_mul (rect_size selRect) maxDpr) (match draws with [] => 1 | _ => maxDpr end) draws).
Proof.
  intros Hp Hne maxDpr selRect Hs draws.
  pose proof (waylandPaint_noShortPath maxDpr selRect (screenImages st) [] Hs) as W.
  unfold acceptEffects, acceptSelection.
  destruct (screenImages st) as [|c cs] eqn:Es; [congruence|].
  rewrite Hp. cbv zeta. unfold selRect, waylandSelRect, maxDpr in W. rewrite W.
  unfold grabbedImage. simpl. rewrite fold_left_app. reflexivity.
Qed.

(** Witness of C3: the selection (1900,0,100,100) across a ratio-1 and a
    ratio-2 screen at application ratio 2: an output of 200x200 with one
    draw from each screen. *)
Lemma acceptSelection_wayland_output_witness :
  let st := editorWith Wayland [screenA; screenB] (mkQRectF 1900 0 100 100) in
  let selRect := waylandSelRect st in
  let draws := map (paintedDraw 2 selRect) (intersectingScreens selRect (screenImages st)) in
  size_mul (rect_size selRect) 2 = mkQSize 200 200 /\
  intersectingScreens selRect (screenImages st) = [screenA; screenB] /\
  grabbedImage (acceptEffects (mkEnv Wayland 2 false) st) =
    Some (Painted (size_mul (rect_size selRect) 2) (match draws with [] => 1 | _ => 2 end) draws).
Proof.
  intros st selRect draws.
  split; [vm_compute; reflexivity|]. split; [vm_compute; reflexivity|].
  apply (acceptSelection_wayland_output (mkEnv Wayland 2 false) st eq_refl).
  - vm_compute. discriminate.
  - constructor; [vm_compute; reflexivity | constructor; [vm_compute; reflexivity | constructor]].
Defined.




(** ** Further properties of the event handlers *)

Lemma mouseMoveEvent_keeps_anchor (st : EditorState) (pos : QPointF) :
  startPos (mouseMoveEvent st pos) = startPos st /\
  initialTopLeft (mouseMoveEvent st pos) = initialTopLeft st /\
  disableArrowKeys (mouseMoveEvent st pos) = disableArrowKeys st /\
  screenImages (mouseMoveEvent st pos) = screenImages st.
Proof.
  unfold mouseMoveEvent; destruct (dragLocation st) eqn:E; cbn; rewrite ?E; repeat split.
Qed.

(** A property kept by every pointer move holds along the whole trace. *)
Lemma moveTrace_Forall (Inv Pr : EditorState -> Prop) (st : EditorState) (ps : list QPointF) :
  Inv st -> (forall s p, Inv s -> Inv (mouseMoveEvent s p) /\ Pr (mouseMoveEvent s p)) ->
  Forall Pr (moveTrace st ps).
Proof.
  intros H0 Hstep. revert st H0. induction ps as [|p ps IH]; intros st H0; simpl; constructor.
  - apply (Hstep st p H0).
  - apply IH. apply (Hstep st p H0).
Qed.

Lemma mousePressEvent_fields (st : EditorState) (synth : bool) (b : Button) (pos : QPointF) :
  b <> OtherButton ->
  let st1 := mousePressEvent st synth b pos in
  devicePixel st1 = devicePixel st /\
  disableArrowKeys st1 = true /\
  mousePos st1 = pos /\
  startPos st1 =
    match dragLocation st1 with
    | MouseLocation.Outside | MouseLocation.Inside => pos
    | MouseLocation.Top | MouseLocation.Left | MouseLocation.TopLeft =>
        mkQPointF (rf_right (selection st1)) (rf_bottom (selection st1))
    | MouseLocation.Bottom | MouseLocation.Right | MouseLocation.BottomRight => rf_topLeft (selection st1)
    | MouseLocation.TopRight => mkQPointF (xp (selection st1)) (rf_bottom (selection st1))
    | MouseLocation.BottomLeft => mkQPointF (rf_right (selection st1)) (yp (selection st1))
    | MouseLocation.None => startPos st
    end.
Proof.
  intros Hb. destruct b; [| |contradiction]; unfold mousePressEvent;
    destruct (mouseLocation _ pos) eqn:E; cbn; rewrite ?E; repeat split.
Qed.

Lemma qAbs_neg (a : Q) : a < 0 -> qAbs a = - a.
Proof.
  intros H. unfold qAbs. destruct (Qle_bool 0 a) eqn:E; [|reflexivity].
  apply Qle_bool_iff in E. lra.
Qed.

Lemma qAbs_pos (a : Q) : 0 <= a -> qAbs a = a.
Proof.
  intros H. unfold qAbs. apply Qle_bool_iff in H. rewrite H. reflexivity.
Qed.

(** One axis of a drag from [s] to [p]: the start is one end of the new
    interval. *)
Lemma drag_axis_anchor (s p dp : Q) :
  (if Qle_bool s p then s else p) == s \/
  (if Qle_bool s p then s else p) + (qAbs (p - s) + (if Qle_bool s p then dp else 0)) == s.
Proof.
  destruct (Qle_bool s p) eqn:E; [left; reflexivity|right].
  apply Qle_bool_false in E. rewrite qAbs_neg by lra. lra.
Qed.

(** Pressing the left or right button on a corner handle anchors the drag
    at the opposite corner of the selection, and every following pointer
    move keeps that anchor as a corner of the selection. *)
Theorem cornerDrag_keeps_anchor (st : EditorState) (synth : bool) (b : Button) (pos : QPointF)
  (ps : list QPointF) :
  b <> OtherButton ->
  isCornerLocation (dragLocation (mousePressEvent st synth b pos)) = true ->
  let st1 := mousePressEvent st synth b pos in
  let sel := selection st1 in
  fx (startPos st1) = match dragLocation st1 with
                      | MouseLocation.TopLeft | MouseLocation.BottomLeft => rf_right sel
                      | _ => xp sel end /\
  fy (startPos st1) = match dragLocation st1 with
                      | MouseLocation.TopLeft | MouseLocation.TopRight => rf_bottom sel
                      | _ => yp sel end /\
  Forall (fun s => (xp (selection s) == fx (startPos st1) \/ rf_right (selection s) == fx (startPos st1)) /\
                   (yp (selection s) == fy (startPos st1) \/ rf_bottom (selection s) == fy (startPos st1)))
    (moveTrace st1 ps).
Proof.
  intros Hb Hc st1 sel.
  destruct (mousePressEvent_fields st synth b pos Hb) as (_ & _ & _ & Esp).
  fold st1 in Esp, Hc.
  split; [|split].
  - rewrite Esp. destruct (dragLocation st1); try discriminate; reflexivity.
  - rewrite Esp. destruct (dragLocation st1); try discriminate; reflexivity.
  - apply (moveTrace_Forall
             (fun s => dragLocation s = dragLocation st1 /\ startPos s = startPos st1)); [split; reflexivity|].
    intros s p [Hd Hs].
    destruct (mouseMoveEvent_keeps s p) as (K1 & _).
    destruct (mouseMoveEvent_keeps_anchor s p) as (K2 & _).
    split; [split; congruence|].
    rewrite <- Hs.
    unfold mouseMoveEvent. rewrite Hd.
    destruct (dragLocation st1); try discriminate; cbn;
      unfold rf_right; cbn [xp yp w h]; split; apply drag_axis_anchor.
Qed.

(** An edge drag: pressing on the top or bottom edge anchors the opposite
    edge; every following move keeps the selection's left end and width and
    keeps the anchor as its top or bottom. The left and right edges act the
    same way on the other axis. *)
Theorem edgeDrag_keeps_other_axis (st : EditorState) (synth : bool) (b : Button) (pos : QPointF)
  (ps : list QPointF) :
  b <> OtherButton ->
  let st1 := mousePressEvent st synth b pos in
  let sel := selection st1 in
  ((dragLocation st1 = MouseLocation.Top \/ dragLocation st1 = MouseLocation.Bottom) ->
   fy (startPos st1) = match dragLocation st1 with MouseLocation.Top => rf_bottom sel | _ => yp sel end /\
   Forall (fun s => xp (selection s) = xp sel /\ w (selection s) = w sel /\
                    (yp (selection s) == fy (startPos st1) \/ rf_bottom (selection s) == fy (startPos st1)))
     (moveTrace st1 ps)) /\
  ((dragLocation st1 = MouseLocation.Left \/ dragLocation st1 = MouseLocation.Right) ->
   fx (startPos st1) = match dragLocation st1 with MouseLocation.Left => rf_right sel | _ => xp sel end /\
   Forall (fun s => yp (selection s) = yp sel /\ h (selection s) = h sel /\
                    (xp (selection s) == fx (startPos st1) \/ rf_right (selection s) == fx (startPos st1)))
     (moveTrace st1 ps)).
Proof.
  intros Hb st1 sel.
  destruct (mousePressEvent_fields st synth b pos Hb) as (_ & _ & _ & Esp).
  fold st1 in Esp.
  split; intros Hd; split.
  - rewrite Esp. destruct Hd as [Hd|Hd]; rewrite Hd; reflexivity.
  - apply (moveTrace_Forall
             (fun s => dragLocation s = dragLocation st1 /\ startPos s = startPos st1 /\
                       xp (selection s) = xp sel /\ w (selection s) = w sel));
      [repeat split|].
    intros s p (Hds & Hs & Hx & Hw).
    destruct (mouseMoveEvent_keeps s p) as (K1 & _).
    destruct (mouseMoveEvent_keeps_anchor s p) as (K2 & _).
    rewrite <- Hs, <- Hx, <- Hw.
    assert (Hsel : xp (selection (mouseMoveEvent s p)) = xp (selection s) /\
                   w (selection (mouseMoveEvent s p)) = w (selection s) /\
                   (yp (selection (mouseMoveEvent s p)) == fy (startPos s) \/
                    rf_bottom (selection (mouseMoveEvent s p)) == fy (startPos s))).
    { unfold mouseMoveEvent. rewrite Hds.
      destruct Hd as [Hd|Hd]; rewrite Hd; cbn; unfold rf_bottom; cbn [xp yp w h];
        (split; [reflexivity|split; [reflexivity|apply drag_axis_anchor]]). }
    destruct Hsel as (S1 & S2 & S3).
    split; [split; [congruence|split; [congruence|split; assumption]]|split; [assumption|split; assumption]].
  - rewrite Esp. destruct Hd as [Hd|Hd]; rewrite Hd; reflexivity.
  - apply (moveTrace_Forall
             (fun s => dragLocation s = dragLocation st1 /\ startPos s = startPos st1 /\
                       yp (selection s) = yp sel /\ h (selection s) = h sel));
      [repeat split|].
    intros s p (Hds & Hs & Hy & Hh).
    destruct (mouseMoveEvent_keeps s p) as (K1 & _).
    destruct (mouseMoveEvent_keeps_anchor s p) as (K2 & _).
    rewrite <- Hs, <- Hy, <- Hh.
    assert (Hsel : yp (selection (mouseMoveEvent s p)) = yp (selection s) /\
                   h (selection (mouseMoveEvent s p)) = h (selection s) /\
                   (xp (selection (mouseMoveEvent s p)) == fx (startPos s) \/
                    rf_right (selection (mouseMoveEvent s p)) == fx (startPos s))).
    { unfold mouseMoveEvent. rewrite Hds.
      destruct Hd as [Hd|Hd]; rewrite Hd; cbn; unfold rf_right; cbn [xp yp w h];
        (split; [reflexivity|split; [reflexivity|apply drag_axis_anchor]]). }
    destruct Hsel as (S1 & S2 & S3).
    split; [split; [congruence|split; [congruence|split; assumption]]|split; [assumption|split; assumption]].
Qed.

(** A rubber-band drag ([Outside]) from the press point: after every move
    the selection spans from the press point to the pointer, so it contains
    the press point, and it is at least one device pixel wide and high. *)
Theorem outsideDrag_contains_press (st : EditorState) (synth : bool) (b : Button) (pos : QPointF)
  (ps : list QPointF) :
  b <> OtherButton ->
  dragLocation (mousePressEvent st synth b pos) = MouseLocation.Outside ->
  0 <= devicePixel st ->
  Forall (fun s => let r := selection s in
                   xp r <= fx pos /\ fx pos + devicePixel st <= xp r + w r /\
                   yp r <= fy pos /\ fy pos + devicePixel st <= yp r + h r /\
                   devicePixel st <= w r /\ devicePixel st <= h r)
    (moveTrace (mousePressEvent st synth b pos) ps).
Proof.
  intros Hb Hd Hdp.
  destruct (mousePressEvent_fields st synth b pos Hb) as (Edp & _ & _ & Esp).
  rewrite Hd in Esp.
  apply (moveTrace_Forall
           (fun s => dragLocation s = MouseLocation.Outside /\ startPos s = pos /\
                     devicePixel s = devicePixel st)); [repeat split; assumption|].
  intros s p (Hds & Hs & Hp).
  destruct (mouseMoveEvent_keeps s p) as (K1 & K2 & _).
  destruct (mouseMoveEvent_keeps_anchor s p) as (K3 & _).
  split; [repeat split; congruence|].
  unfold mouseMoveEvent. rewrite Hds, Hs, Hp. cbn.
  destruct (Qlt_le_dec (fx p - fx pos) 0) as [Ex|Ex];
    [rewrite (qAbs_neg _ Ex)|rewrite (qAbs_pos _ Ex)];
  (destruct (Qlt_le_dec (fy p - fy pos) 0) as [Ey|Ey];
    [rewrite (qAbs_neg _ Ey)|rewrite (qAbs_pos _ Ey)]);
  qminmax; repeat split; lra.
Qed.

(** Moving the whole selection ([Inside]): its new size is its old size
    scaled by the device-pixel ratio, cut to the screens' size; at ratio 1 a
    selection that fits keeps its size. *)
Theorem insideMove_size (st : EditorState) (pos : QPointF) :
  dragLocation st = MouseLocation.Inside ->
  let r := selection (mouseMoveEvent st pos) in
  w r = qMin (w (selection st) * devicePixelRatio st) (w (screensRect st)) /\
  h r = qMin (h (selection st) * devicePixelRatio st) (h (screensRect st)) /\
  (devicePixelRatio st == 1 -> w (selection st) <= w (screensRect st) ->
   h (selection st) <= h (screensRect st) -> w r == w (selection st) /\ h r == h (selection st)).
Proof.
  intros E r.
  destruct (mouseMoveEvent_inside st pos E) as (nr & Hr & Ew & Eh).
  assert (Hw : w r = qMin (w (selection st) * devicePixelRatio st) (w (screensRect st)))
    by (unfold r; rewrite Hr, <- Ew; reflexivity).
  assert (Hh : h r = qMin (h (selection st) * devicePixelRatio st) (h (screensRect st)))
    by (unfold r; rewrite Hr, <- Eh; reflexivity).
  split; [exact Hw|split; [exact Hh|]].
  intros H1 Hsw Hsh. rewrite Hw, Hh.
  assert (Ew2 : w (selection st) * devicePixelRatio st == w (selection st)) by (rewrite H1; ring).
  assert (Eh2 : h (selection st) * devicePixelRatio st == h (selection st)) by (rewrite H1; ring).
  set (a := w (selection st) * devicePixelRatio st) in *.
  set (c := h (selection st) * devicePixelRatio st) in *.
  qminmax; split; lra.
Qed.

Lemma acceptSelection_keeps (env : Env) (st : EditorState) :
  let st' := snd (acceptSelection env st) in
  selection st' = selection st /\ startPos st' = startPos st /\
  dragLocation st' = dragLocation st /\ disableArrowKeys st' = disableArrowKeys st /\
  magnifierAllowed st' = magnifierAllowed st.
Proof.
  unfold acceptSelection. destruct (screenImages st); [repeat split|].
  destruct (platform env); [repeat split|].
  destruct (waylandPaint _ _ _ _ _); repeat split.
Qed.

(** A button release that does not capture (another button, a drag that
    is not a rubber band, or release-to-capture off) emits nothing, ends
    the drag, turns the magnifier off and keeps the selection; a left or
    right release enables the arrow keys again. *)
Theorem mouseReleaseEvent_ends_drag (env : Env) (releaseToCapture : bool) (st : EditorState) (b : Button) :
  (b = OtherButton \/ dragLocation st <> MouseLocation.Outside \/ releaseToCapture = false) ->
  let '(effs, st') := mouseReleaseEvent env releaseToCapture st b in
  effs = [] /\ dragLocation st' = MouseLocation.None /\ magnifierAllowed st' = false /\
  selection st' = selection st /\ startPos st' = startPos st /\
  disableArrowKeys st' = match b with OtherButton => disableArrowKeys st | _ => false end.
Proof.
  intros H. unfold mouseReleaseEvent.
  destruct b, (dragLocation st) eqn:E, releaseToCapture; cbn; try (repeat split; fail);
    destruct H as [H|[H|H]]; first [discriminate | contradiction].
Qed.

(** With release-to-capture on, releasing the left or right button at the
    end of a rubber-band drag commits the selection and returns at once:
    the drag location stays [Outside] and the arrow keys stay disabled. *)
Theorem mouseReleaseEvent_capture (env : Env) (st : EditorState) (b : Button) :
  b <> OtherButton -> dragLocation st = MouseLocation.Outside ->
  let '(effs, st') := mouseReleaseEvent env true st b in
  effs = acceptEffects env st /\ st' = snd (acceptSelection env st) /\
  dragLocation st' = MouseLocation.Outside /\ disableArrowKeys st' = disableArrowKeys st.
Proof.
  intros Hb E.
  destruct (acceptSelection_keeps env st) as (_ & _ & K1 & K2 & _).
  unfold acceptEffects.
  destruct b; [| |contradiction]; unfold mouseReleaseEvent; rewrite E;
    destruct (acceptSelection env st) as [[ok effs] st'] eqn:A; cbn in *;
    (split; [reflexivity|split; [reflexivity|split; congruence]]).
Qed.

(** From a left or right press on, through every pointer move of the
    drag, an arrow key changes nothing and emits nothing (only Shift's
    magnifier toggle is recorded). *)
Theorem arrowKeys_ignored_during_drag (env : Env) (toggle : bool) (st : EditorState) (synth : bool)
  (b : Button) (pos : QPointF) (ps : list QPointF) (shift alt : bool) (k : ArrowKey) :
  b <> OtherButton ->
  Forall (fun s => keyPressEvent env toggle s shift alt (Key_Arrow k) = ([], s, if shift then true else toggle))
    (mousePressEvent st synth b pos :: moveTrace (mousePressEvent st synth b pos) ps).
Proof.
  intros Hb.
  destruct (mousePressEvent_fields st synth b pos Hb) as (_ & Hdis & _ & _).
  assert (Hall : Forall (fun s => disableArrowKeys s = true)
                   (mousePressEvent st synth b pos :: moveTrace (mousePressEvent st synth b pos) ps)).
  { constructor; [exact Hdis|].
    apply (moveTrace_Forall (fun s => disableArrowKeys s = true)); [exact Hdis|].
    intros s p Hs. destruct (mouseMoveEvent_keeps_anchor s p) as (_ & _ & K & _).
    split; congruence. }
  eapply Forall_impl; [|exact Hall].
  intros s Hs. unfold keyPressEvent, handleArrowKey. rewrite Hs. reflexivity.
Qed.

Lemma rf_containsPoint_nondegenerate (r : QRectF) (p : QPointF) :
  rf_containsPoint r p = true -> ~ w r == 0 /\ ~ h r == 0.
Proof.
  unfold rf_containsPoint. intros H; split; intros C.
  - destruct (Qle_bool 0 (w r)).
    + assert (E : Qeq_bool (xp r) (xp r + w r) = true) by (apply Qeq_bool_iff; lra).
      rewrite E in H. discriminate.
    + assert (E : Qeq_bool (xp r + w r) (xp r) = true) by (apply Qeq_bool_iff; lra).
      rewrite E in H. discriminate.
  - destruct (Qeq_bool _ _); [discriminate|].
    destruct (negb _ || negb _); [discriminate|].
    destruct (Qle_bool 0 (h r)).
    + assert (E : Qeq_bool (yp r) (yp r + h r) = true) by (apply Qeq_bool_iff; lra).
      rewrite E in H. discriminate.
    + assert (E : Qeq_bool (yp r + h r) (yp r) = true) by (apply Qeq_bool_iff; lra).
      rewrite E in H. discriminate.
Qed.

(** A double-click commits (emits anything) only for the left button, with
    the last pointer position inside a selection that is neither zero wide
    nor zero high, and with screens captured. *)
Theorem mouseDoubleClickEvent_commits_only (env : Env) (st : EditorState) (b : Button) :
  fst (mouseDoubleClickEvent env st b) <> [] ->
  b = LeftButton /\ rf_containsPoint (selection st) (mousePos st) = true /\
  ~ w (selection st) == 0 /\ ~ h (selection st) == 0 /\ screenImages st <> [].
Proof.
  unfold mouseDoubleClickEvent.
  destruct b; [|intros C; contradiction C; reflexivity ..].
  destruct (rf_containsPoint (selection st) (mousePos st)) eqn:Ec; [|intros C; contradiction C; reflexivity].
  destruct (rf_containsPoint_nondegenerate _ _ Ec) as [Hw Hh].
  intros Hne. repeat split; try assumption.
  intros Hs. apply Hne. unfold acceptSelection. rewrite Hs. reflexivity.
Qed.

Lemma clip_if (a : Q) :
  (0 <= a -> (if Qle_bool 0 a then 0 else a) == 0) /\ (a < 0 -> (if Qle_bool 0 a then 0 else a) == a).
Proof.
  destruct (Qle_bool 0 a) eqn:E; split; intros H; try reflexivity.
  - apply Qle_bool_iff in E. lra.
  - apply Qle_bool_false in E. lra.
Qed.

(** The shape of the handle layout: each corner moved out by [offset]
    and, with enough room, pulled back inside the screens by the clipped
    [offsetTop/Right/Bottom/Left]. *)
Lemma updateHandlePositions_shape (sel sr : QRectF) (hr pen : Q) :
  let space := 4 * hr + 2 * s_minSpacingBetweenHandles in
  let m := qMin (w sel) (h sel) in
  let tsr := rf_translated sr (- xp sr) (- yp sr) in
  let clip a o := (0 <= a -> o == 0) /\ (a < 0 -> o == a) in
  exists off oT oR oB oL,
    updateHandlePositions sel sr hr pen =
      [ mkQPointF (xp sel - off - oL) (yp sel - off - oT);
        mkQPointF (xp sel + w sel + off + oR) (yp sel - off - oT);
        mkQPointF (xp sel + w sel + off + oR) (yp sel + h sel + off + oB);
        mkQPointF (xp sel - off - oL) (yp sel + h sel + off + oB);
        mkQPointF (xp sel + w sel / 2) (yp sel - off - oT);
        mkQPointF (xp sel + w sel + off + oR) (yp sel + h sel / 2);
        mkQPointF (xp sel + w sel / 2) (yp sel + h sel + off + oB);
        mkQPointF (xp sel - off - oL) (yp sel + h sel / 2) ] /\
    ((m < space /\ off == (space - m) / 2 /\ oT == 0 /\ oR == 0 /\ oB == 0 /\ oL == 0) \/
     (space <= m /\ off == 0 /\
      clip (yp sel - yp tsr - hr) oT /\ clip (rf_right tsr - (xp sel + w sel) - hr + pen) oR /\
      clip (rf_bottom tsr - (yp sel + h sel) - hr + pen) oB /\ clip (xp sel - xp tsr - hr) oL)).
Proof.
  intros space m tsr clip. unfold updateHandlePositions.
  fold space m tsr.
  destruct (Qle_bool space m) eqn:Ec; cbn [negb].
  - do 5 eexists. split; [reflexivity|right].
    apply Qle_bool_iff in Ec.
    split; [exact Ec|split; [reflexivity|]].
    repeat split; apply clip_if.
  - do 5 eexists. split; [reflexivity|left].
    apply Qle_bool_false in Ec.
    repeat split; try reflexivity; exact Ec.
Qed.

Ltac handles_shape sel sr hr pen :=
  let off := fresh "off" in let oT := fresh "oT" in let oR := fresh "oR" in
  let oB := fresh "oB" in let oL := fresh "oL" in let E := fresh "E" in
  let C := fresh "C" in
  destruct (updateHandlePositions_shape sel sr hr pen) as (off & oT & oR & oB & oL & E & C);
  rewrite E; unfold nthPoint; cbn [nth fx fy];
  unfold rf_translated, rf_right, rf_bottom in C; cbn [xp yp w h] in C; cbv beta in C;
  unfold Qdiv in *; change (/ 2) with (1#2) in *.

(** The handle layout of a selection inside the screens: the handles
    along each side of the selection share their coordinate across
    that side, and neighbouring handles are at least [handleRadius +
    s_minSpacingBetweenHandles] apart, so for both radii the circular
    hit zones never overlap. *)
Theorem updateHandlePositions_spacing (sel sr : QRectF) (hr pen : Q) :
  0 <= w sel -> 0 <= h sel -> 0 <= hr -> 0 <= pen ->
  0 <= xp sel -> xp sel + w sel <= w sr -> 0 <= yp sel -> yp sel + h sel <= h sr ->
  let p := nthPoint (updateHandlePositions sel sr hr pen) in
  let d := hr + s_minSpacingBetweenHandles in
  fy (p 0%nat) = fy (p 4%nat) /\ fy (p 4%nat) = fy (p 1%nat) /\
  fx (p 1%nat) = fx (p 5%nat) /\ fx (p 5%nat) = fx (p 2%nat) /\
  fy (p 2%nat) = fy (p 6%nat) /\ fy (p 6%nat) = fy (p 3%nat) /\
  fx (p 3%nat) = fx (p 7%nat) /\ fx (p 7%nat) = fx (p 0%nat) /\
  d <= fx (p 4%nat) - fx (p 0%nat) /\ d <= fx (p 1%nat) - fx (p 4%nat) /\
  d <= fy (p 5%nat) - fy (p 1%nat) /\ d <= fy (p 2%nat) - fy (p 5%nat) /\
  d <= fx (p 2%nat) - fx (p 6%nat) /\ d <= fx (p 6%nat) - fx (p 3%nat) /\
  d <= fy (p 3%nat) - fy (p 7%nat) /\ d <= fy (p 7%nat) - fy (p 0%nat).
Proof.
  intros Hw Hh Hr Hp Hx1 Hx2 Hy1 Hy2 p d. unfold p, d.
  handles_shape sel sr hr pen.
  unfold s_minSpacingBetweenHandles in *.
  do 8 (split; [reflexivity|]).
  destruct C as [(Hm & Ho & H1 & H2 & H3 & H4)|(Hm & Ho & [T1 T2] & [R1 R2] & [B1 B2] & [L1 L2])].
  - qminmax; repeat split; lra.
  - assert (-hr <= oT <= 0) by (destruct (Qlt_le_dec (yp sel - (yp sr + - yp sr) - hr) 0); [specialize (T2 q)|specialize (T1 q)]; lra).
    assert (-hr <= oL <= 0) by (destruct (Qlt_le_dec (xp sel - (xp sr + - xp sr) - hr) 0); [specialize (L2 q)|specialize (L1 q)]; lra).
    assert (-hr <= oR <= 0) by (destruct (Qlt_le_dec (xp sr + - xp sr + w sr - (xp sel + w sel) - hr + pen) 0); [specialize (R2 q)|specialize (R1 q)]; lra).
    assert (-hr <= oB <= 0) by (destruct (Qlt_le_dec (yp sr + - yp sr + h sr - (yp sel + h sel) - hr + pen) 0); [specialize (B2 q)|specialize (B1 q)]; lra).
    qminmax; repeat split; lra.
Qed.

(** [handlesRect] covers every handle's hit square (its centre plus or
    minus [handleRadius] on both axes) for a selection inside the screens. *)
Theorem handlesRect_covers_handles (sel sr : QRectF) (hr pen : Q) (n : nat) :
  0 <= w sel -> 0 <= h sel -> 0 <= hr -> 0 <= pen ->
  0 <= xp sel -> xp sel + w sel <= w sr -> 0 <= yp sel -> yp sel + h sel <= h sr ->
  (n < 8)%nat ->
  let hp := updateHandlePositions sel sr hr pen in
  let c := nthPoint hp n in
  let r := handlesRect hp hr in
  xp r <= fx c - hr /\ fx c + hr <= xp r + w r /\ yp r <= fy c - hr /\ fy c + hr <= yp r + h r.
Proof.
  intros Hw Hh Hr Hp Hx1 Hx2 Hy1 Hy2 Hn hp c r. unfold c, r, hp, handlesRect.
  handles_shape sel sr hr pen. cbn [xp yp w h].
  unfold s_minSpacingBetweenHandles in *.
  destruct C as [(Hm & Ho & H1 & H2 & H3 & H4)|(Hm & Ho & [T1 T2] & [R1 R2] & [B1 B2] & [L1 L2])].
  - do 8 (destruct n as [|n]; [cbn [nth fx fy]; qminmax; repeat split; lra|]). lia.
  - assert (-hr <= oT <= 0) by (destruct (Qlt_le_dec (yp sel - (yp sr + - yp sr) - hr) 0); [specialize (T2 q)|specialize (T1 q)]; lra).
    assert (-hr <= oL <= 0) by (destruct (Qlt_le_dec (xp sel - (xp sr + - xp sr) - hr) 0); [specialize (L2 q)|specialize (L1 q)]; lra).
    assert (-hr <= oR <= 0) by (destruct (Qlt_le_dec (xp sr + - xp sr + w sr - (xp sel + w sel) - hr + pen) 0); [specialize (R2 q)|specialize (R1 q)]; lra).
    assert (-hr <= oB <= 0) by (destruct (Qlt_le_dec (yp sr + - yp sr + h sr - (yp sel + h sel) - hr + pen) 0); [specialize (B2 q)|specialize (B1 q)]; lra).
    do 8 (destruct n as [|n]; [cbn [nth fx fy]; qminmax; repeat split; lra|]). lia.
Qed.

(** With room to spare (the selection at least [4 * handleRadius + 40]
    on its short side and [handleRadius] away from the screens' edges, the
    pen width counting towards the right and bottom), the handles sit
    exactly on the selection's corners and edge midpoints. *)
Theorem updateHandlePositions_on_corners (sel sr : QRectF) (hr pen : Q) :
  4 * hr + 2 * s_minSpacingBetweenHandles <= w sel ->
  4 * hr + 2 * s_minSpacingBetweenHandles <= h sel ->
  hr <= xp sel -> xp sel + w sel + hr <= w sr + pen ->
  hr <= yp sel -> yp sel + h sel + hr <= h sr + pen ->
  let p := nthPoint (updateHandlePositions sel sr hr pen) in
  let l := xp sel in let t := yp sel in let r := xp sel + w sel in let b := yp sel + h sel in
  let cx := xp sel + w sel / 2 in let cy := yp sel + h sel / 2 in
  fx (p 0%nat) == l /\ fy (p 0%nat) == t /\ fx (p 1%nat) == r /\ fy (p 1%nat) == t /\
  fx (p 2%nat) == r /\ fy (p 2%nat) == b /\ fx (p 3%nat) == l /\ fy (p 3%nat) == b /\
  fx (p 4%nat) == cx /\ fy (p 4%nat) == t /\ fx (p 5%nat) == r /\ fy (p 5%nat) == cy /\
  fx (p 6%nat) == cx /\ fy (p 6%nat) == b /\ fx (p 7%nat) == l /\ fy (p 7%nat) == cy.
Proof.
  intros Hw Hh Hx1 Hx2 Hy1 Hy2 p l t r b cx cy. unfold p, l, t, r, b, cx, cy.
  handles_shape sel sr hr pen.
  unfold s_minSpacingBetweenHandles in *.
  destruct C as [(Hm & _)|(_ & Ho & [T1 _] & [R1 _] & [B1 _] & [L1 _])].
  - qminmax; lra.
  - rewrite T1, R1, B1, L1 by lra. rewrite Ho.
    repeat split; ring.
Qed.

(** ** Rounding *)

Lemma qtrunc_nonneg (q : Q) : 0 <= q -> qtrunc q = Qfloor q.
Proof.
  destruct q as [n d]. unfold qtrunc, Qfloor, Qle. cbn. intros H.
  apply Z.quot_div_nonneg; lia.
Qed.

Lemma Qfloor_unique (z : Z) (x : Q) : inject_Z z <= x -> x < inject_Z (z + 1) -> Qfloor x = z.
Proof.
  intros H1 H2.
  pose proof (Qfloor_le x) as F1. pose proof (Qlt_floor x) as F2.
  assert (A : (Qfloor x < z + 1)%Z).
  { rewrite Zlt_Qlt. eapply Qle_lt_trans; eassumption. }
  assert (B : (z < Qfloor x + 1)%Z).
  { rewrite Zlt_Qlt. eapply Qle_lt_trans; eassumption. }
  lia.
Qed.

(** Qt's [qRound] is [floor(d + 1/2)] on exact values, on both sides of 0. *)
Lemma qRound_floor (d : Q) : qRound d = Qfloor (d + (1#2)).
Proof.
  unfold qRound. destruct (Qle_bool 0 d) eqn:E.
  - apply Qle_bool_iff in E. apply qtrunc_nonneg. lra.
  - apply Qle_bool_false in E.
    assert (Hc : qtrunc (d - 1) = Qceiling (d - 1)).
    { destruct (d - 1) as [n m] eqn:Ed.
      assert (Hn : (n <= 0)%Z).
      { assert (Hq : n # m <= 0) by (rewrite <- Ed; lra). unfold Qle in Hq. cbn in Hq. lia. }
      unfold qtrunc, Qceiling, Qfloor. cbn.
      replace n with (- (- n))%Z at 1 by lia. rewrite Z.quot_opp_l by lia.
      rewrite Z.quot_div_nonneg by lia. reflexivity. }
    rewrite Hc. set (c := Qceiling (d - 1)).
    pose proof (Qle_ceiling (d - 1)) as C1. pose proof (Qceiling_lt (d - 1)) as C2. fold c in C1, C2.
    rewrite <- Z.add_opp_r, inject_Z_plus, inject_Z_opp in C2. change (inject_Z 1) with 1 in C2.
    rewrite qtrunc_nonneg by lra.
    symmetry. apply Qfloor_unique.
    + rewrite inject_Z_plus. pose proof (Qfloor_le (d - inject_Z c + (1#2))). lra.
    + rewrite inject_Z_plus, inject_Z_plus. pose proof (Qlt_floor (d - inject_Z c + (1#2))).
      rewrite inject_Z_plus in H. change (inject_Z 1) with 1 in *. lra.
Qed.

Lemma qRound_mono (a b : Q) : a <= b -> (qRound a <= qRound b)%Z.
Proof.
  intros H. rewrite !qRound_floor. apply Qfloor_resp_le. lra.
Qed.

Lemma qRound_inject (z : Z) : qRound (inject_Z z) = z.
Proof.
  rewrite qRound_floor. apply Qfloor_unique; rewrite ?inject_Z_plus; change (inject_Z 1) with 1; lra.
Qed.

Lemma inject_Z_mult' (a b : Z) : inject_Z a * inject_Z b = inject_Z (a * b).
Proof. reflexivity. Qed.

(** ** The canvas and the screens' rectangle *)

Lemma canvas_fold_pixel (sr : QRect) (l : list (CanvasImage * QPoint)) :
  forall (acc : QImage) (x y : Z),
  pixel (fold_left (fun acc '(ci, tp) =>
                      img_drawAt acc (point_sub tp (rect_topLeft sr)) (img_setDevicePixelRatio (ci_image ci) 1))
                   l acc) x y =
  match lastCover sr l x y with
  | Some (ci, tp) =>
      let p := point_sub tp (rect_topLeft sr) in pixel (ci_image ci) (x - ix p) (y - iy p)
  | None => pixel acc x y
  end.
Proof.
  induction l as [|[ci tp] l IH]; intros acc x y; [reflexivity|].
  cbn [fold_left lastCover]. rewrite IH.
  destruct (lastCover sr l x y) as [[ci' tp']|]; [reflexivity|].
  unfold coversAt. cbn. destruct (_ && _); reflexivity.
Qed.

(** Each pixel of the canvas built by [setScreenImages] is the pixel of
    the last screen, in the order of [screenImages], whose image drawn at
    its translated point covers it; a pixel no screen covers stays black. *)
Theorem canvasOf_pixel (imgs : list CanvasImage) (tps : list QPoint) (sr : QRect) (x y : Z) :
  pixel (canvasOf imgs tps sr) x y =
  match lastCover sr (combine imgs tps) x y with
  | Some (ci, tp) =>
      let p := point_sub tp (rect_topLeft sr) in pixel (ci_image ci) (x - ix p) (y - iy p)
  | None => black
  end.
Proof. unfold canvasOf. rewrite canvas_fold_pixel. reflexivity. Qed.

Lemma rect_containsRect_trans (a b c : QRect) :
  rect_containsRect a b -> rect_containsRect b c -> rect_containsRect a c.
Proof. unfold rect_containsRect. lia. Qed.

Lemma rect_containsRect_refl (a : QRect) : rect_containsRect a a.
Proof. unfold rect_containsRect. lia. Qed.

Lemma rect_united_props (a b : QRect) :
  (rect_isNull a = true \/ (0 <= rect_width a /\ 0 <= rect_height a))%Z ->
  (0 < rect_width b)%Z -> (0 < rect_height b)%Z ->
  let u := rect_united a b in
  (0 < rect_width u /\ 0 < rect_height u)%Z /\ rect_containsRect u b /\
  (rect_isNull a = false -> rect_containsRect u a).
Proof.
  intros Ha Hw Hh u. unfold u, rect_united.
  assert (Nb : rect_isNull b = false).
  { unfold rect_isNull, rect_width, rect_height in *.
    destruct (Z.eqb_spec (x2 b) (x1 b - 1)); [lia|reflexivity]. }
  rewrite Nb.
  destruct (rect_isNull a) eqn:Na.
  - split; [split; assumption|split; [apply rect_containsRect_refl|discriminate]].
  - destruct Ha as [Ha|Ha]; [discriminate|].
    unfold rect_containsRect, rect_l, rect_r, rect_t, rect_b, rect_width, rect_height in *. cbn.
    repeat match goal with |- context [Z.ltb ?x ?y] => destruct (Z.ltb_spec x y) end;
      repeat split; try lia.
Qed.

Lemma screensRect_fold (plat : Platform) (imgs : list CanvasImage) :
  forall acc,
  (rect_isNull acc = true \/ (0 <= rect_width acc /\ 0 <= rect_height acc))%Z ->
  Forall (fun ci => 0 < rect_width (virtualScreenRect plat ci) /\ 0 < rect_height (virtualScreenRect plat ci))%Z imgs ->
  let u := fold_left (fun acc ci => rect_united acc (virtualScreenRect plat ci)) imgs acc in
  (rect_isNull u = true \/ (0 <= rect_width u /\ 0 <= rect_height u))%Z /\
  (rect_isNull acc = false -> rect_containsRect u acc) /\
  Forall (fun ci => rect_containsRect u (virtualScreenRect plat ci)) imgs.
Proof.
  induction imgs as [|ci imgs IH]; intros acc Hacc Hall u.
  - split; [exact Hacc|split; [intros _; apply rect_containsRect_refl|constructor]].
  - inversion Hall as [|? ? [Hw Hh] Hrest]; subst.
    destruct (rect_united_props acc (virtualScreenRect plat ci) Hacc Hw Hh) as ([Uw Uh] & Ub & Ua).
    set (acc' := rect_united acc (virtualScreenRect plat ci)) in *.
    assert (Nacc' : rect_isNull acc' = false).
    { unfold rect_isNull, rect_width in *. destruct (Z.eqb_spec (x2 acc') (x1 acc' - 1)); [lia|reflexivity]. }
    destruct (IH acc' (or_intror (conj (Z.lt_le_incl _ _ Uw) (Z.lt_le_incl _ _ Uh))) Hrest)
      as (Hu & Hc & Hf).
    specialize (Hc Nacc').
    split; [exact Hu|split].
    + intros Na. exact (rect_containsRect_trans _ _ _ Hc (Ua Na)).
    + constructor; [exact (rect_containsRect_trans _ _ _ Hc Ub)|exact Hf].
Qed.

(** The screens' rectangle that [setScreenImages] computes by uniting the
    screens' virtual rectangles contains every screen's rectangle (each
    screen non-empty). *)
Theorem screensRect_covers (plat : Platform) (imgs : list CanvasImage) :
  Forall (fun ci => 0 < rect_width (virtualScreenRect plat ci) /\ 0 < rect_height (virtualScreenRect plat ci))%Z imgs ->
  Forall (fun ci => rect_containsRect (screensRectOf plat imgs) (virtualScreenRect plat ci)) imgs.
Proof.
  intros Hall. apply (screensRect_fold plat imgs QRect_null (or_introl eq_refl) Hall).
Qed.

(** The part of a screen that [QRect::intersected] keeps lies within a
    well-formed selection rectangle it intersects. *)
Lemma intersected_within (a b : QRect) :
  rect_intersects b a = true -> (0 <= rect_width b)%Z -> (0 <= rect_height b)%Z ->
  let i := rect_intersected a b in
  (x1 b <= x1 i /\ x2 i <= x2 b /\ y1 b <= y1 i /\ y2 i <= y2 b)%Z.
Proof.
  intros H Hw Hh i. unfold i. unfold rect_intersects in H. unfold rect_intersected.
  rewrite (orb_comm (rect_isNull b)) in H. destruct (rect_isNull a || rect_isNull b); [discriminate|].
  rewrite (orb_comm (Z.ltb (rect_r a) (rect_l b))) in H.
  destruct (Z.ltb (rect_r b) (rect_l a) || Z.ltb (rect_r a) (rect_l b)); [discriminate|].
  rewrite (orb_comm (Z.ltb (rect_b a) (rect_t b))) in H.
  destruct (Z.ltb (rect_b b) (rect_t a) || Z.ltb (rect_b a) (rect_t b)); [discriminate|].
  unfold rect_l, rect_r, rect_t, rect_b, rect_width, rect_height in *. cbn.
  repeat match goal with |- context [Z.ltb ?x ?y] => destruct (Z.ltb_spec x y) end; lia.
Qed.

Lemma waylandPaint_targets (k : Z) (selRect : QRect) (selSize : QSize) (screens : list CanvasImage) :
  (1 <= k)%Z -> (0 <= rect_width selRect)%Z -> (0 <= rect_height selRect)%Z ->
  forall draws,
  Forall (fun d => 0 <= x1 (fst d) /\ x2 (fst d) < rect_width selRect * k /\
                   0 <= y1 (fst d) /\ y2 (fst d) < rect_height selRect * k)%Z draws ->
  match waylandPaint (inject_Z k) selRect selSize screens draws with
  | inl _ => True
  | inr ds => Forall (fun d => 0 <= x1 (fst d) /\ x2 (fst d) < rect_width selRect * k /\
                               0 <= y1 (fst d) /\ y2 (fst d) < rect_height selRect * k)%Z ds
  end.
Proof.
  intros Hk Hw Hh. induction screens as [|ci screens IH]; intros draws Hd; [exact Hd|].
  cbn [waylandPaint].
  destruct (rect_intersects selRect (rf_toRect (ci_rect ci))) eqn:Hi; [|apply IH; exact Hd].
  destruct (size_eqb _ _); [exact I|].
  apply IH. apply Forall_app. split; [exact Hd|]. constructor; [|constructor].
  pose proof (intersected_within _ _ Hi Hw Hh) as Hin.
  set (i := rect_intersected (rf_toRect (ci_rect ci)) selRect) in *.
  unfold rect_setSize, rect_moveTopLeft, point_mul, point_sub, size_mul, rect_size, rect_topLeft.
  cbn [fst x1 x2 y1 y2 ix iy sw sh].
  rewrite !inject_Z_mult', !qRound_inject.
  unfold rect_width, rect_height in *. nia.
Qed.

(** On Wayland with an integer application ratio [k >= 1], every
    [drawImage] target rectangle of the painted output lies inside the
    output image. *)
Theorem acceptSelection_wayland_draws_inside (env : Env) (st : EditorState) (k : Z)
  (size : QSize) (dpr : Q) (draws : list (QRect * QImage)) :
  platform env = Wayland -> appDevicePixelRatio env = inject_Z k -> (1 <= k)%Z ->
  In (GrabDone (Painted size dpr draws)) (acceptEffects env st) ->
  Forall (fun d => 0 <= x1 (fst d) /\ x2 (fst d) < sw size /\ 0 <= y1 (fst d) /\ y2 (fst d) < sh size)%Z
    draws.
Proof.
  intros Hp Hk Hk1 Hin. unfold acceptEffects, acceptSelection in Hin.
  destruct (screenImages st) as [|c cs] eqn:Hs; [destruct Hin|].
  rewrite Hp, Hk in Hin. rewrite <- Hs in Hin.
  set (sr := rf_toRect (rf_normalized (selection st))) in *.
  assert (Hw : (0 <= rect_width sr)%Z /\ (0 <= rect_height sr)%Z).
  { destruct (normalized_isWellFormed (selection st)) as [W H].
    unfold sr, rf_toRect, rect_width, rect_height. cbn [x1 x2 y1 y2].
    split; [assert (qRound (xp (rf_normalized (selection st))) <=
                    qRound (xp (rf_normalized (selection st)) + w (rf_normalized (selection st))))%Z
              by (apply qRound_mono; lra)
           |assert (qRound (yp (rf_normalized (selection st))) <=
                    qRound (yp (rf_normalized (selection st)) + h (rf_normalized (selection st))))%Z
              by (apply qRound_mono; lra)]; lia. }
  destruct Hw as [Hw Hh].
  pose proof (waylandPaint_targets k sr (rect_size sr) (screenImages st) Hk1 Hw Hh [] (Forall_nil _)) as T.
  destruct (waylandPaint (inject_Z k) sr (rect_size sr) (screenImages st) []) as [img|ds] eqn:W.
  - apply in_app_or in Hin. destruct Hin as [Hin|[Hin|Hin]]; [|discriminate|destruct Hin].
    apply in_app_or in Hin. destruct Hin as [Hin|[Hin|Hin]]; [|discriminate|destruct Hin].
    destruct (rememberAlways env); [destruct Hin as [Hin|Hin]; [discriminate|destruct Hin]|destruct Hin].
  - apply in_app_or in Hin. destruct Hin as [Hin|[Hin|Hin]]; [|injection Hin as <- _ <-|destruct Hin].
    + apply in_app_or in Hin. destruct Hin as [Hin|[Hin|Hin]]; [|discriminate|destruct Hin].
      destruct (rememberAlways env); [destruct Hin as [Hin|Hin]; [discriminate|destruct Hin]|destruct Hin].
    + unfold size_mul, rect_size. cbn [sw sh]. rewrite !inject_Z_mult', !qRound_inject. exact T.
Qed.

(** ** [QuickEditor] *)

Lemma quick_rect_width_xywh (a b c d : Z) : rect_width (QRect_xywh a b c d) = c.
Proof. unfold rect_width, QRect_xywh; cbn; lia. Qed.

Lemma quick_rect_height_xywh (a b c d : Z) : rect_height (QRect_xywh a b c d) = d.
Proof. unfold rect_height, QRect_xywh; cbn; lia. Qed.

Lemma quick_round_scaled (a k : Z) : qRound (inject_Z a * inject_Z k) = (a * k)%Z.
Proof. rewrite inject_Z_mult'. apply qRound_inject. Qed.

Lemma quick_trunc_unscaled (a k : Z) : (1 <= k)%Z -> (0 <= a)%Z ->
  qtrunc (inject_Z (a * k) * (1 / inject_Z k)) = a.
Proof.
  intros Hk Ha.
  assert (Hk' : ~ inject_Z k == 0).
  { intros E. unfold Qeq in E. cbn in E. lia. }
  assert (E : inject_Z (a * k) * (1 / inject_Z k) == inject_Z a).
  { rewrite <- inject_Z_mult'. field. exact Hk'. }
  rewrite qtrunc_nonneg.
  - rewrite (Qfloor_comp _ _ E). apply Qfloor_Z.
  - rewrite E. unfold Qle; cbn; lia.
Qed.

Lemma quick_x1_xywh (a b c d : Z) : x1 (QRect_xywh a b c d) = a.
Proof. reflexivity. Qed.

Lemma quick_y1_xywh (a b c d : Z) : y1 (QRect_xywh a b c d) = b.
Proof. reflexivity. Qed.

Lemma quick_isEmpty_xywh (a b c d : Z) : (1 <= c)%Z -> (1 <= d)%Z -> rect_isEmpty (QRect_xywh a b c d) = false.
Proof.
  intros Hc Hd. unfold rect_isEmpty, QRect_xywh; cbn.
  destruct (Z.ltb_spec (a + c - 1) a), (Z.ltb_spec (b + d - 1) b); cbn; lia.
Qed.

(** The crop region that [QuickEditor::acceptSelection] saves, restored by
    the constructor of the next editor at the same integer device pixel
    ratio and widget size, gives back the committed selection, provided
    the selection is non-empty and lies in the widget's [rect()]. *)
Theorem quickCropRegion_roundtrip (plat : Platform) (ds : list Q) (st : QuickEditor.State) (k : Z)
  (remember : RememberRegion) (current : QRect) :
  (1 <= k)%Z -> QuickEditor.devicePixelRatio st = inject_Z k ->
  rect_isEmpty (QuickEditor.mSelection st) = false ->
  (0 <= x1 (QuickEditor.mSelection st))%Z -> (x2 (QuickEditor.mSelection st) < QuickEditor.widgetWidth st)%Z ->
  (0 <= y1 (QuickEditor.mSelection st))%Z -> (y2 (QuickEditor.mSelection st) < QuickEditor.widgetHeight st)%Z ->
  remember <> RememberNever ->
  exists region g,
    QuickEditor.acceptSelection plat ds st = [QuickEditor.SetCropRegion region; QuickEditor.GrabDone g] /\
    QuickEditor.restoreSelection remember region (1 / inject_Z k)
      (QuickEditor.widgetWidth st) (QuickEditor.widgetHeight st) current = QuickEditor.mSelection st.
Proof.
  intros Hk Hd He Hx1 Hx2 Hy1 Hy2 Hr.
  unfold QuickEditor.acceptSelection. rewrite He, Hd.
  set (sel := QuickEditor.mSelection st) in *.
  set (W := QuickEditor.widgetWidth st) in *. set (H := QuickEditor.widgetHeight st) in *.
  unfold rect_isEmpty in He. apply orb_false_iff in He as [Hex Hey].
  apply Z.ltb_ge in Hex. apply Z.ltb_ge in Hey.
  rewrite !quick_round_scaled, quick_rect_width_xywh, quick_rect_height_xywh.
  eexists. destruct plat.
  2: destruct (QuickEditor.waylandFill _ _ _ _).
  all: eexists; split; [reflexivity|].
  all: unfold QuickEditor.restoreSelection; destruct remember; [contradiction| |];
       cbv zeta; cbn [nth]; rewrite ?quick_rect_width_xywh, ?quick_rect_height_xywh, ?quick_x1_xywh, ?quick_y1_xywh.
  all: rewrite quick_isEmpty_xywh by (unfold rect_width, rect_height; nia).
  all: rewrite (quick_trunc_unscaled (x1 sel)), (quick_trunc_unscaled (y1 sel)),
         (quick_trunc_unscaled (rect_width sel)), (quick_trunc_unscaled (rect_height sel))
         by (unfold rect_width, rect_height; lia).
  all: clearbody sel; destruct sel as [a b c d]; unfold rect_width, rect_height in *; cbn [x1 x2 y1 y2] in *;
       unfold rect_intersected, rect_isNull, rect_l, rect_r, rect_t, rect_b, QRect_xywh; cbn [x1 x2 y1 y2];
       repeat match goal with
              | |- context [Z.ltb ?p ?q] => destruct (Z.ltb_spec p q); try lia
              | |- context [Z.eqb ?p ?q] => destruct (Z.eqb_spec p q); try lia
              end;
       cbn; f_equal; lia.
Qed.

(** Without Alt an arrow key moves [QuickEditor]'s selection: its width
    and height are kept. *)
Theorem quickArrow_move_keeps_size (st : QuickEditor.State) (shift : bool) (k : ArrowKey) :
  rect_width (QuickEditor.arrowKey st shift false k) = rect_width (QuickEditor.mSelection st) /\
  rect_height (QuickEditor.arrowKey st shift false k) = rect_height (QuickEditor.mSelection st).
Proof.
  unfold rect_width, rect_height.
  destruct k, shift; cbn; split; lia.
Qed.

Lemma rect_normalized_size (r : QRect) :
  (0 <= rect_width (rect_normalized r))%Z /\ (0 <= rect_height (rect_normalized r))%Z.
Proof.
  destruct r as [a b c d]. unfold rect_normalized, rect_width, rect_height; cbn.
  destruct (Z.ltb_spec c (a - 1)), (Z.ltb_spec d (b - 1)); cbn; lia.
Qed.

(** With Alt an arrow key resizes [QuickEditor]'s selection and the result
    is normalized: its width and height are never negative. *)
Theorem quickArrow_alt_normalized (st : QuickEditor.State) (shift : bool) (k : ArrowKey) :
  (0 <= rect_width (QuickEditor.arrowKey st shift true k))%Z /\
  (0 <= rect_height (QuickEditor.arrowKey st shift true k))%Z.
Proof. destruct k, shift; apply rect_normalized_size. Qed.

Lemma qRound_nonneg (q : Q) : 0 <= q -> (0 <= qRound q)%Z.
Proof. intros H. rewrite <- (qRound_inject 0). apply qRound_mono. exact H. Qed.

Lemma qRound_le_Z (q : Q) (z : Z) : q <= inject_Z z -> (qRound q <= z)%Z.
Proof. intros H. rewrite <- (qRound_inject z). apply qRound_mono. exact H. Qed.

Lemma qMin_le_l (a b : Q) : qMin a b <= a.
Proof. unfold qMin. destruct (Qle_bool b a) eqn:E; [apply Qle_bool_iff in E; exact E | lra]. Qed.

Lemma nonneg_step (v : Q) : 0 <= (if Qle_bool 0 v then v else 0).
Proof. destruct (Qle_bool 0 v) eqn:E; [apply Qle_bool_iff in E; exact E | lra]. Qed.

(** Without Alt, Left and Up never move [QuickEditor]'s selection past the
    widget's left or top edge (0), and Right and Down never move its right
    or bottom edge past [width()] or [height()] (one pixel beyond
    [rect()]), when [devicePixelRatioI] is the inverse of the ratio. *)
Theorem quickArrow_move_bounds (st : QuickEditor.State) (shift : bool) (k : ArrowKey) :
  0 <= QuickEditor.devicePixelRatioI st ->
  QuickEditor.devicePixelRatioI st * QuickEditor.devicePixelRatio st == 1 ->
  let r := QuickEditor.arrowKey st shift false k in
  match k with
  | Key_Left => (0 <= x1 r)%Z
  | Key_Up => (0 <= y1 r)%Z
  | Key_Right => (x2 r <= QuickEditor.widgetWidth st)%Z
  | Key_Down => (y2 r <= QuickEditor.widgetHeight st)%Z
  end.
Proof.
  intros HI Hinv. cbv zeta.
  set (dpr := QuickEditor.devicePixelRatio st) in *. set (dprI := QuickEditor.devicePixelRatioI st) in *.
  destruct k, shift; cbn [QuickEditor.arrowKey rect_moveLeft rect_moveTop rect_moveRight rect_moveBottom
                        x1 x2 y1 y2]; fold dpr dprI.
  - destruct (Z.ltb_spec (x1 (QuickEditor.mSelection st) - 1) 0); lia.
  - apply qRound_nonneg. apply Qmult_le_0_compat; [exact HI | apply nonneg_step].
  - unfold zMin. destruct (Z.ltb_spec (QuickEditor.widgetWidth st) (x2 (QuickEditor.mSelection st) + 1)); lia.
  - apply qRound_le_Z.
    apply Qle_trans with (dprI * (inject_Z (QuickEditor.widgetWidth st) * dpr)).
    + rewrite !(Qmult_comm dprI). apply Qmult_le_compat_r; [apply qMin_le_l | exact HI].
    + assert (E : dprI * (inject_Z (QuickEditor.widgetWidth st) * dpr)
                  == inject_Z (QuickEditor.widgetWidth st) * (dprI * dpr)) by ring.
      rewrite E, Hinv. lra.
  - destruct (Z.ltb_spec (y1 (QuickEditor.mSelection st) - 1) 0); lia.
  - apply qRound_nonneg. apply Qmult_le_0_compat; [exact HI | apply nonneg_step].
  - unfold zMin. destruct (Z.ltb_spec (QuickEditor.widgetHeight st) (y2 (QuickEditor.mSelection st) + 1)); lia.
  - apply qRound_le_Z.
    apply Qle_trans with (dprI * (inject_Z (QuickEditor.widgetHeight st) * dpr)).
    + rewrite !(Qmult_comm dprI). apply Qmult_le_compat_r; [apply qMin_le_l | exact HI].
    + assert (E : dprI * (inject_Z (QuickEditor.widgetHeight st) * dpr)
                  == inject_Z (QuickEditor.widgetHeight st) * (dprI * dpr)) by ring.
      rewrite E, Hinv. lra.
Qed.

Lemma quick_accept_empty (plat : Platform) (ds : list Q) (st : QuickEditor.State) :
  rect_isEmpty (QuickEditor.mSelection st) = true -> QuickEditor.acceptSelection plat ds st = [].
Proof. intros H. unfold QuickEditor.acceptSelection. rewrite H. reflexivity. Qed.

(** A right-button release in [QuickEditor] emits nothing, ends the drag
    and collapses the selection to an empty one, so that neither Return
    nor a double click commits anything afterwards. *)
Theorem quickRightRelease_clears (plat : Platform) (ds : list Q) (st : QuickEditor.State)
  (shift alt : bool) (b : Button) (pos : QPoint) :
  let '(effs, st') := QuickEditor.mouseReleaseEvent plat ds st RightButton in
  effs = [] /\ QuickEditor.mMouseDragState st' = QuickEditor.MouseState.None /\
  rect_isEmpty (QuickEditor.mSelection st') = true /\
  fst (QuickEditor.keyPressEvent plat ds st' shift alt QuickEditor.Key_Return) = [] /\
  QuickEditor.mouseDoubleClickEvent plat ds st' b pos = [].
Proof.
  assert (He : rect_isEmpty (rect_setHeight (rect_setWidth (QuickEditor.mSelection st) 0) 0) = true).
  { unfold rect_isEmpty; cbn. apply orb_true_iff. left. apply Z.ltb_lt. lia. }
  cbn [QuickEditor.mouseReleaseEvent]. split; [reflexivity|]. split; [reflexivity|].
  split; [exact He|]. split.
  - unfold QuickEditor.keyPressEvent. destruct shift; cbn; apply quick_accept_empty; exact He.
  - unfold QuickEditor.mouseDoubleClickEvent. destruct b; try reflexivity.
    destruct (rect_containsPoint _ _); [|reflexivity]. apply quick_accept_empty; exact He.
Qed.

(** A release in [QuickEditor] that does not capture (not the left button,
    a drag that is not a rubber band, or release-to-capture off) emits
    nothing, ends the drag and keeps the magnifier toggle; a left release
    enables the arrow keys again. *)
Theorem quickRelease_ends_drag (plat : Platform) (ds : list Q) (st : QuickEditor.State) (b : Button) :
  (b <> LeftButton \/ QuickEditor.mMouseDragState st <> QuickEditor.MouseState.Outside \/
   QuickEditor.mReleaseToCapture st = false) ->
  let '(effs, st') := QuickEditor.mouseReleaseEvent plat ds st b in
  effs = [] /\ QuickEditor.mMouseDragState st' = QuickEditor.MouseState.None /\
  QuickEditor.mToggleMagnifier st' = QuickEditor.mToggleMagnifier st /\
  QuickEditor.mDisableArrowKeys st' =
    match b with LeftButton => false | _ => QuickEditor.mDisableArrowKeys st end.
Proof.
  intros H. unfold QuickEditor.mouseReleaseEvent.
  destruct b, (QuickEditor.mMouseDragState st) eqn:E, (QuickEditor.mReleaseToCapture st) eqn:R;
    cbn; try (repeat split; fail).
  destruct H as [H|[H|H]]; first [congruence | contradiction].
Qed.

(** A double click in [QuickEditor] commits only for the left button,
    inside the selection, and only when the selection is not empty. *)
Theorem quickDoubleClick_commits_only (plat : Platform) (ds : list Q) (st : QuickEditor.State)
  (b : Button) (pos : QPoint) :
  QuickEditor.mouseDoubleClickEvent plat ds st b pos <> [] ->
  b = LeftButton /\ rect_containsPoint (QuickEditor.mSelection st) pos = true /\
  rect_isEmpty (QuickEditor.mSelection st) = false.
Proof.
  unfold QuickEditor.mouseDoubleClickEvent. intros H.
  destruct b; try contradiction.
  destruct (rect_containsPoint _ _) eqn:C; [|contradiction].
  split; [reflexivity|]. split; [reflexivity|].
  destruct (rect_isEmpty (QuickEditor.mSelection st)) eqn:E; [|reflexivity].
  exfalso. apply H. apply quick_accept_empty. exact E.
Qed.

(** Away from the eight handle circles, [QuickEditor::mouseLocation]
    reports a border only for a selection of at least 100 x 100, with the
    pointer within 10 of that border and inside its extent; [Inside] and
    [Outside] are whether the selection contains the rounded point. *)
Theorem quickMouseLocation_zones (st : QuickEditor.State) (pos : QPointF) :
  (forall n, (n < 8)%nat ->
     QuickEditor.isPointInsideCircle (nthPoint (QuickEditor.mHandlePositions st) n)
       (inject_Z (QuickEditor.mHandleRadius st) * 2) pos = false) ->
  let sel := QuickEditor.mSelection st in
  let sx := inject_Z (x1 sel) in let sy := inject_Z (y1 sel) in
  let sw := inject_Z (rect_width sel) in let sh := inject_Z (rect_height sel) in
  let big := (100 <= rect_width sel)%Z /\ (100 <= rect_height sel)%Z in
  match QuickEditor.mouseLocation st pos with
  | QuickEditor.MouseState.Top => big /\ sx <= fx pos <= sx + sw /\ qAbs (fy pos - sy) <= 10
  | QuickEditor.MouseState.Bottom => big /\ sx <= fx pos <= sx + sw /\ qAbs (fy pos - sy - sh) <= 10
  | QuickEditor.MouseState.Left => big /\ sy <= fy pos <= sy + sh /\ qAbs (fx pos - sx) <= 10
  | QuickEditor.MouseState.Right => big /\ sy <= fy pos <= sy + sh /\ qAbs (fx pos - sx - sw) <= 10
  | QuickEditor.MouseState.Inside => rect_containsPoint sel (pf_toPoint pos) = true
  | QuickEditor.MouseState.Outside => rect_containsPoint sel (pf_toPoint pos) = false
  | _ => False
  end.
Proof.
  intros Hc. cbv zeta. unfold QuickEditor.mouseLocation.
  rewrite !Hc by lia.
  unfold QuickEditor.inRange, QuickEditor.withinThreshold.
  destruct (rect_containsPoint _ (pf_toPoint pos)) eqn:C;
  destruct ((100 <=? rect_width _)%Z) eqn:E1; destruct ((100 <=? rect_height _)%Z) eqn:E2; cbn [andb];
  try (apply Z.leb_le in E1); try (apply Z.leb_le in E2);
  repeat match goal with
         | |- context [Qle_bool ?p ?q] =>
             let E := fresh "E" in
             destruct (Qle_bool p q) eqn:E; [apply Qle_bool_iff in E|]; cbn [andb]
         end;
  first [reflexivity | repeat split; assumption].
Qed.

Lemma quick_point_eqb_true (a b : QPoint) : QuickEditor.point_eqb a b = true <-> a = b.
Proof.
  destruct a as [a1 a2], b as [b1 b2]. unfold QuickEditor.point_eqb; cbn.
  rewrite andb_true_iff, !Z.eqb_eq. split; [intros [-> ->]; reflexivity | intros E; inversion E; auto].
Qed.

Lemma quick_mapValue_identity (tm : list (QPoint * QPoint)) (p : QPoint) :
  identityMap tm -> In p (map fst tm) -> QuickEditor.mapValue tm p = p.
Proof.
  induction tm as [|[k v] tm IH]; cbn; intros Hi Hin; [contradiction|].
  destruct (QuickEditor.point_eqb p k) eqn:E.
  - apply quick_point_eqb_true in E. rewrite E. apply (Hi k v). left; reflexivity.
  - destruct Hin as [Hin|Hin].
    + exfalso. assert (T : QuickEditor.point_eqb p k = true) by (apply quick_point_eqb_true; symmetry; exact Hin).
      congruence.
    + apply IH; [intros k' v' H; apply (Hi k' v'); right; exact H | exact Hin].
Qed.

Lemma quick_mapInsert_identity (tm : list (QPoint * QPoint)) (p : QPoint) :
  identityMap tm -> identityMap (QuickEditor.mapInsert tm p p).
Proof.
  induction tm as [|[k v] tm IH]; cbn; intros Hi.
  - intros k v [H|[]]. inversion H; reflexivity.
  - destruct (QuickEditor.point_eqb p k) eqn:E.
    + apply quick_point_eqb_true in E. rewrite <- E. intros k' v' [H|H].
      * inversion H; reflexivity.
      * apply (Hi k' v'). right; exact H.
    + intros k' v' [H|H].
      * apply (Hi k' v'). left; exact H.
      * apply IH; [intros k'' v'' H'; apply (Hi k'' v''); right; exact H' | exact H].
Qed.

Lemma quick_mapInsert_keys (tm : list (QPoint * QPoint)) (p v x : QPoint) :
  In x (map fst tm) \/ x = p -> In x (map fst (QuickEditor.mapInsert tm p v)).
Proof.
  induction tm as [|[k v'] tm IH]; cbn; intros H.
  - destruct H as [[]|H]. left; symmetry; exact H.
  - destruct (QuickEditor.point_eqb p k) eqn:E; cbn.
    + apply quick_point_eqb_true in E. rewrite <- E in *. destruct H as [[H|H]|H]; auto.
    + destruct H as [[H|H]|H]; auto.
Qed.

Lemma fold_left_invariant {A B : Type} (P : A -> Prop) (f : A -> B -> A) (l : list B) (a : A) :
  P a -> (forall a b, In b l -> P a -> P (f a b)) -> P (fold_left f l a).
Proof.
  revert a. induction l as [|b l IH]; cbn; intros a Ha Hf; [exact Ha|].
  apply IH; [apply Hf; [left; reflexivity | exact Ha] | intros a' b' Hb; apply Hf; right; exact Hb].
Qed.

Lemma quick_fromKey_sub {V : Type} (m : list (QPoint * V)) (p : QPoint) (e : QPoint * V) :
  In e (QuickEditor.fromKey m p) -> In e m.
Proof.
  induction m as [|[k v] m IH]; cbn; [tauto|].
  destruct (QuickEditor.point_eqb k p); [tauto|]. intros H; right; apply IH; exact H.
Qed.

(** [QuickEditor::computeCoordinatesAfterScaling] maps every output's
    position to itself: the deltas it computes are always 0. *)
Theorem quickTranslation_identity (outputsRect : list (QPoint * (Q * QSize))) (p : QPoint) :
  In p (map fst outputsRect) ->
  QuickEditor.mapValue (QuickEditor.computeCoordinatesAfterScaling outputsRect) p = p.
Proof.
  intros Hp.
  set (Inv := fun tm => identityMap tm /\ forall x, In x (map fst outputsRect) -> In x (map fst tm)).
  assert (HI : Inv (QuickEditor.computeCoordinatesAfterScaling outputsRect)).
  { unfold QuickEditor.computeCoordinatesAfterScaling.
    apply fold_left_invariant.
    - (* the initial map: every key to itself *)
      assert (G : forall (l : list (QPoint * (Q * QSize))) tm, identityMap tm ->
                identityMap (fold_left (fun m '(k, _) => QuickEditor.mapInsert m k k) l tm) /\
                forall x, In x (map fst l) \/ In x (map fst tm) ->
                  In x (map fst (fold_left (fun m '(k, _) => QuickEditor.mapInsert m k k) l tm))).
      { induction l as [|[k d] l IH]; cbn; intros tm Htm.
        - split; [exact Htm|]. intros x [[]|H]; exact H.
        - destruct (IH (QuickEditor.mapInsert tm k k)) as [IH1 IH2];
            [apply quick_mapInsert_identity; exact Htm|].
          split; [exact IH1|]. intros x Hx. apply IH2.
          destruct Hx as [[Hx|Hx]|Hx].
          + right. apply quick_mapInsert_keys. right. symmetry. exact Hx.
          + left. exact Hx.
          + right. apply quick_mapInsert_keys. left. exact Hx. }
      destruct (G outputsRect []) as [G1 G2]; [intros k v []|].
      split; [exact G1|]. intros x Hx. apply G2. left. exact Hx.
    - intros tm [p0 [dpr size]] _ [Hid Hkeys].
      destruct (negb (qFuzzyCompare dpr 1)); [|split; assumption].
      apply fold_left_invariant; [split; assumption|].
      intros tm' [point d] Hin [Hid' Hkeys'].
      assert (Hk : In point (map fst outputsRect)).
      { apply quick_fromKey_sub in Hin. apply (in_map fst) in Hin. exact Hin. }
      rewrite (quick_mapValue_identity tm' point Hid' (Hkeys' point Hk)).
      cbv zeta.
      match goal with |- context [QuickEditor.mapInsert tm' point ?v] =>
        replace v with point
          by (destruct point as [px py]; cbn; f_equal;
              match goal with |- context [if ?c then _ else _] => destruct c end; lia)
      end.
      split; [apply quick_mapInsert_identity; exact Hid'|].
      intros x Hx. apply quick_mapInsert_keys. left. apply Hkeys'. exact Hx. }
  destruct HI as [HI1 HI2]. apply quick_mapValue_identity; [exact HI1 | apply HI2; exact Hp].
Qed.

(** [SpectacleCore::captureTimeRemaining] is never negative, never more
    than the total delay when the current time is not negative, and 0 once
    the animation has stopped. *)
Theorem captureTimeRemaining_bounds (totalDuration currentTime : Z) (stopped : bool) :
  (0 <= currentTime)%Z ->
  (0 <= captureTimeRemaining totalDuration currentTime stopped <= Z.max 0 totalDuration)%Z /\
  (stopped = true -> captureTimeRemaining totalDuration currentTime stopped = 0%Z).
Proof.
  intros H. unfold captureTimeRemaining.
  destruct (Z.ltb_spec totalDuration currentTime), stopped; cbn; split; try lia; intros; congruence.
Qed.

Lemma acceptEffects_cropRegion (env : Env) (st : EditorState) (cr : QRect) :
  In (SetCropRegion cr) (acceptEffects env st) ->
  rememberAlways env = true /\ cr = rf_toAlignedRect (rf_normalized (selection st)).
Proof.
  unfold acceptEffects, acceptSelection.
  destruct (screenImages st); [cbn; tauto|].
  assert (G : forall tl, In (SetCropRegion cr)
               (((if rememberAlways env then [SetCropRegion (rf_toAlignedRect (rf_normalized (selection st)))] else [])
                 ++ [CropCanvas (if rf_isEmpty (rf_normalized (selection st)) then screensRect st
                                 else rf_normalized (selection st))]) ++ tl) ->
               (In (SetCropRegion cr) tl -> False) ->
               rememberAlways env = true /\ cr = rf_toAlignedRect (rf_normalized (selection st))).
  { intros tl H Htl. destruct (rememberAlways env); cbn in H.
    - destruct H as [H|[H|H]]; [inversion H; auto | discriminate | exfalso; exact (Htl H)].
    - destruct H as [H|H]; [discriminate | exfalso; exact (Htl H)]. }
  destruct (platform env); cbn [fst snd].
  - intros H. apply (G _ H). intros [E|[]]. discriminate.
  - destruct (waylandPaint _ _ _ _ _); cbn [fst snd]; intros H; apply (G _ H); intros [E|[]]; discriminate.
Qed.

(** With "remember region: Always", the region [SelectionEditor::acceptSelection]
    saves and the [newScreensScreenshotTaken] handler restores as the next
    selection covers the committed (normalized) selection, and equals it
    when the selection's edges are whole pixels. *)
Theorem cropRegion_restore_covers (env : Env) (st st0 : EditorState) (cr : QRect) :
  In (SetCropRegion cr) (acceptEffects env st) ->
  let n := rf_normalized (selection st) in
  let r := selection (restoreCropRegion RememberAlways cr st0) in
  rf_within (selection st) r /\
  (forall a b c d : Z, xp n == inject_Z a -> yp n == inject_Z b ->
     xp n + w n == inject_Z c -> yp n + h n == inject_Z d ->
     xp r == xp n /\ yp r == yp n /\ w r == w n /\ h r == h n).
Proof.
  intros H. apply acceptEffects_cropRegion in H as [_ ->]. cbv zeta.
  unfold restoreCropRegion, setSelection, st_with. cbn [selection].
  unfold rf_within, rf_ofRect, rf_toAlignedRect, rect_width, rect_height, QRect_xywh. cbn [x1 x2 y1 y2 xp yp w h].
  set (n := rf_normalized (selection st)).
  assert (Ew : forall p q : Z, inject_Z (p + (q - p) - 1 - p + 1) == inject_Z q - inject_Z p).
  { intros p q. replace (p + (q - p) - 1 - p + 1)%Z with (q + - p)%Z by lia.
    rewrite inject_Z_plus, inject_Z_opp. ring. }
  rewrite !Ew.
  pose proof (Qfloor_le (xp n)). pose proof (Qfloor_le (yp n)).
  pose proof (Qle_ceiling (xp n + w n)). pose proof (Qle_ceiling (yp n + h n)).
  split.
  - split; [|split; [|split]]; lra.
  - intros a b c d Ea Eb Ec Ed. rewrite !Ew.
    rewrite (Qfloor_comp _ _ Ea), (Qfloor_comp _ _ Eb), (Qceiling_comp _ _ Ec), (Qceiling_comp _ _ Ed).
    rewrite !Qfloor_Z, !Qceiling_Z. repeat split; lra.
Qed.

(** ** Witnesses *)

Lemma cornerDrag_keeps_anchor_witness :
  let st := sampleEditor in let pos := mkQPointF 100 100 in
  LeftButton <> OtherButton /\
  isCornerLocation (dragLocation (mousePressEvent st false LeftButton pos)) = true /\
  let st1 := mousePressEvent st false LeftButton pos in
  let sel := selection st1 in
  fx (startPos st1) = match dragLocation st1 with
                      | MouseLocation.TopLeft | MouseLocation.BottomLeft => rf_right sel
                      | _ => xp sel end /\
  fy (startPos st1) = match dragLocation st1 with
                      | MouseLocation.TopLeft | MouseLocation.TopRight => rf_bottom sel
                      | _ => yp sel end /\
  Forall (fun s => (xp (selection s) == fx (startPos st1) \/ rf_right (selection s) == fx (startPos st1)) /\
                   (yp (selection s) == fy (startPos st1) \/ rf_bottom (selection s) == fy (startPos st1)))
    (moveTrace st1 sampleMoves).
Proof.
  intros st pos.
  assert (H1 : LeftButton <> OtherButton) by discriminate.
  assert (H2 : isCornerLocation (dragLocation (mousePressEvent st false LeftButton pos)) = true)
    by (vm_compute; reflexivity).
  exact (conj H1 (conj H2 (cornerDrag_keeps_anchor st false LeftButton pos sampleMoves H1 H2))).
Defined.

Lemma edgeDrag_keeps_other_axis_witness :
  let st := sampleEditor in let pos := mkQPointF 150 100 in
  LeftButton <> OtherButton /\
  dragLocation (mousePressEvent st false LeftButton pos) = MouseLocation.Top /\
  let st1 := mousePressEvent st false LeftButton pos in
  let sel := selection st1 in
  ((dragLocation st1 = MouseLocation.Top \/ dragLocation st1 = MouseLocation.Bottom) ->
   fy (startPos st1) = match dragLocation st1 with MouseLocation.Top => rf_bottom sel | _ => yp sel end /\
   Forall (fun s => xp (selection s) = xp sel /\ w (selection s) = w sel /\
                    (yp (selection s) == fy (startPos st1) \/ rf_bottom (selection s) == fy (startPos st1)))
     (moveTrace st1 sampleMoves)) /\
  ((dragLocation st1 = MouseLocation.Left \/ dragLocation st1 = MouseLocation.Right) ->
   fx (startPos st1) = match dragLocation st1 with MouseLocation.Left => rf_right sel | _ => xp sel end /\
   Forall (fun s => yp (selection s) = yp sel /\ h (selection s) = h sel /\
                    (xp (selection s) == fx (startPos st1) \/ rf_right (selection s) == fx (startPos st1)))
     (moveTrace st1 sampleMoves)).
Proof.
  intros st pos.
  assert (H1 : LeftButton <> OtherButton) by discriminate.
  assert (H2 : dragLocation (mousePressEvent st false LeftButton pos) = MouseLocation.Top)
    by (vm_compute; reflexivity).
  exact (conj H1 (conj H2 (edgeDrag_keeps_other_axis st false LeftButton pos sampleMoves H1))).
Defined.

Lemma outsideDrag_contains_press_witness :
  let st := sampleEditor in let pos := mkQPointF 500 500 in
  LeftButton <> OtherButton /\
  dragLocation (mousePressEvent st false LeftButton pos) = MouseLocation.Outside /\
  0 <= devicePixel st /\
  Forall (fun s => let r := selection s in
                   xp r <= fx pos /\ fx pos + devicePixel st <= xp r + w r /\
                   yp r <= fy pos /\ fy pos + devicePixel st <= yp r + h r /\
                   devicePixel st <= w r /\ devicePixel st <= h r)
    (moveTrace (mousePressEvent st false LeftButton pos) sampleMoves).
Proof.
  intros st pos.
  assert (H1 : LeftButton <> OtherButton) by discriminate.
  assert (H2 : dragLocation (mousePressEvent st false LeftButton pos) = MouseLocation.Outside)
    by (vm_compute; reflexivity).
  assert (H3 : 0 <= devicePixel st) by (vm_compute; discriminate).
  exact (conj H1 (conj H2 (conj H3 (outsideDrag_contains_press st false LeftButton pos sampleMoves H1 H2 H3)))).
Defined.

Lemma insideMove_size_witness :
  let st := mousePressEvent sampleEditor false LeftButton (mkQPointF 150 150) in
  let pos := mkQPointF 400 300 in
  dragLocation st = MouseLocation.Inside /\
  let r := selection (mouseMoveEvent st pos) in
  w r = qMin (w (selection st) * devicePixelRatio st) (w (screensRect st)) /\
  h r = qMin (h (selection st) * devicePixelRatio st) (h (screensRect st)) /\
  (devicePixelRatio st == 1 -> w (selection st) <= w (screensRect st) ->
   h (selection st) <= h (screensRect st) -> w r == w (selection st) /\ h r == h (selection st)).
Proof.
  intros st pos.
  assert (H1 : dragLocation st = MouseLocation.Inside) by (vm_compute; reflexivity).
  exact (conj H1 (insideMove_size st pos H1)).
Defined.

Lemma mouseReleaseEvent_ends_drag_witness :
  let env := mkEnv Wayland 1 true in
  let st := mousePressEvent sampleEditor false LeftButton (mkQPointF 500 500) in
  (LeftButton = OtherButton \/ dragLocation st <> MouseLocation.Outside \/ false = false) /\
  let '(effs, st') := mouseReleaseEvent env false st LeftButton in
  effs = [] /\ dragLocation st' = MouseLocation.None /\ magnifierAllowed st' = false /\
  selection st' = selection st /\ startPos st' = startPos st /\
  disableArrowKeys st' = false.
Proof.
  intros env st.
  assert (H : LeftButton = OtherButton \/ dragLocation st <> MouseLocation.Outside \/ false = false)
    by (right; right; reflexivity).
  exact (conj H (mouseReleaseEvent_ends_drag env false st LeftButton H)).
Defined.

Lemma mouseReleaseEvent_capture_witness :
  LeftButton <> OtherButton /\
  dragLocation (mousePressEvent sampleEditor false LeftButton (mkQPointF 500 500)) = MouseLocation.Outside /\
  let '(effs, st') := mouseReleaseEvent (mkEnv Wayland 1 true) true
                        (mousePressEvent sampleEditor false LeftButton (mkQPointF 500 500)) LeftButton in
  effs = acceptEffects (mkEnv Wayland 1 true) (mousePressEvent sampleEditor false LeftButton (mkQPointF 500 500)) /\
  st' = snd (acceptSelection (mkEnv Wayland 1 true) (mousePressEvent sampleEditor false LeftButton (mkQPointF 500 500))) /\
  dragLocation st' = MouseLocation.Outside /\
  disableArrowKeys st' = disableArrowKeys (mousePressEvent sampleEditor false LeftButton (mkQPointF 500 500)).
Proof.
  assert (H1 : LeftButton <> OtherButton) by discriminate.
  assert (H2 : dragLocation (mousePressEvent sampleEditor false LeftButton (mkQPointF 500 500)) = MouseLocation.Outside)
    by (vm_compute; reflexivity).
  split; [exact H1|]. split; [exact H2|].
  generalize (mouseReleaseEvent_capture (mkEnv Wayland 1 true)
                (mousePressEvent sampleEditor false LeftButton (mkQPointF 500 500)) LeftButton H1 H2).
  destruct (mouseReleaseEvent (mkEnv Wayland 1 true) true
              (mousePressEvent sampleEditor false LeftButton (mkQPointF 500 500)) LeftButton).
  intros C; exact C.
Defined.

Lemma arrowKeys_ignored_during_drag_witness :
  let env := mkEnv Wayland 1 true in let pos := mkQPointF 150 150 in
  LeftButton <> OtherButton /\
  Forall (fun s => keyPressEvent env false s true false (Key_Arrow Key_Left) = ([], s, true))
    (mousePressEvent sampleEditor false LeftButton pos
       :: moveTrace (mousePressEvent sampleEditor false LeftButton pos) sampleMoves).
Proof.
  intros env pos.
  assert (H1 : LeftButton <> OtherButton) by discriminate.
  exact (conj H1 (arrowKeys_ignored_during_drag env false sampleEditor false LeftButton pos sampleMoves
                    true false Key_Left H1)).
Defined.

Lemma mouseDoubleClickEvent_commits_only_witness :
  let env := mkEnv Wayland 1 true in
  let st := mousePressEvent sampleEditor false LeftButton (mkQPointF 150 150) in
  fst (mouseDoubleClickEvent env st LeftButton) <> [] /\
  LeftButton = LeftButton /\ rf_containsPoint (selection st) (mousePos st) = true /\
  ~ w (selection st) == 0 /\ ~ h (selection st) == 0 /\ screenImages st <> [].
Proof.
  intros env st.
  assert (H : fst (mouseDoubleClickEvent env st LeftButton) <> []) by (vm_compute; discriminate).
  exact (conj H (mouseDoubleClickEvent_commits_only env st LeftButton H)).
Defined.

Lemma updateHandlePositions_spacing_witness :
  let sel := mkQRectF 100 100 100 100 in let sr := mkQRectF 0 0 1920 1080 in
  let p := nthPoint (updateHandlePositions sel sr 9 1) in
  let d := 9 + s_minSpacingBetweenHandles in
  fy (p 0%nat) = fy (p 4%nat) /\ fy (p 4%nat) = fy (p 1%nat) /\
  fx (p 1%nat) = fx (p 5%nat) /\ fx (p 5%nat) = fx (p 2%nat) /\
  fy (p 2%nat) = fy (p 6%nat) /\ fy (p 6%nat) = fy (p 3%nat) /\
  fx (p 3%nat) = fx (p 7%nat) /\ fx (p 7%nat) = fx (p 0%nat) /\
  d <= fx (p 4%nat) - fx (p 0%nat) /\ d <= fx (p 1%nat) - fx (p 4%nat) /\
  d <= fy (p 5%nat) - fy (p 1%nat) /\ d <= fy (p 2%nat) - fy (p 5%nat) /\
  d <= fx (p 2%nat) - fx (p 6%nat) /\ d <= fx (p 6%nat) - fx (p 3%nat) /\
  d <= fy (p 3%nat) - fy (p 7%nat) /\ d <= fy (p 7%nat) - fy (p 0%nat).
Proof.
  intros sel sr.
  apply (updateHandlePositions_spacing sel sr 9 1); vm_compute; discriminate.
Defined.

Lemma handlesRect_covers_handles_witness :
  let sel := mkQRectF 100 100 100 100 in let sr := mkQRectF 0 0 1920 1080 in
  let hp := updateHandlePositions sel sr 9 1 in
  let c := nthPoint hp 6 in
  let r := handlesRect hp 9 in
  xp r <= fx c - 9 /\ fx c + 9 <= xp r + w r /\ yp r <= fy c - 9 /\ fy c + 9 <= yp r + h r.
Proof.
  intros sel sr.
  apply (handlesRect_covers_handles sel sr 9 1 6); first [lia | vm_compute; discriminate].
Defined.

Lemma updateHandlePositions_on_corners_witness :
  let sel := mkQRectF 100 100 100 100 in let sr := mkQRectF 0 0 1920 1080 in
  let p := nthPoint (updateHandlePositions sel sr 9 1) in
  let l := xp sel in let t := yp sel in let r := xp sel + w sel in let b := yp sel + h sel in
  let cx := xp sel + w sel / 2 in let cy := yp sel + h sel / 2 in
  fx (p 0%nat) == l /\ fy (p 0%nat) == t /\ fx (p 1%nat) == r /\ fy (p 1%nat) == t /\
  fx (p 2%nat) == r /\ fy (p 2%nat) == b /\ fx (p 3%nat) == l /\ fy (p 3%nat) == b /\
  fx (p 4%nat) == cx /\ fy (p 4%nat) == t /\ fx (p 5%nat) == r /\ fy (p 5%nat) == cy /\
  fx (p 6%nat) == cx /\ fy (p 6%nat) == b /\ fx (p 7%nat) == l /\ fy (p 7%nat) == cy.
Proof.
  intros sel sr.
  apply (updateHandlePositions_on_corners sel sr 9 1); vm_compute; discriminate.
Defined.

Lemma screensRect_covers_witness :
  Forall (fun ci => 0 < rect_width (virtualScreenRect Wayland ci) /\ 0 < rect_height (virtualScreenRect Wayland ci))%Z
    [screenA; screenB] /\
  Forall (fun ci => rect_containsRect (screensRectOf Wayland [screenA; screenB]) (virtualScreenRect Wayland ci))
    [screenA; screenB].
Proof.
  assert (H : Forall (fun ci => 0 < rect_width (virtualScreenRect Wayland ci) /\
                                0 < rect_height (virtualScreenRect Wayland ci))%Z [screenA; screenB]).
  { repeat constructor; vm_compute; reflexivity. }
  exact (conj H (screensRect_covers Wayland [screenA; screenB] H)).
Defined.

Lemma acceptSelection_wayland_draws_inside_witness :
  let env := mkEnv Wayland 2 true in
  let st := editorWith Wayland [screenA; screenB] (mkQRectF 1800 100 300 300) in
  let selRect := rf_toRect (rf_normalized (selection st)) in
  let size := size_mul (rect_size selRect) 2 in
  let draws := match waylandPaint 2 selRect (rect_size selRect) (screenImages st) [] with
               | inr d => d | inl _ => [] end in
  platform env = Wayland /\ appDevicePixelRatio env = inject_Z 2 /\ (1 <= 2)%Z /\
  In (GrabDone (Painted size 2 draws)) (acceptEffects env st) /\
  Forall (fun d => 0 <= x1 (fst d) /\ x2 (fst d) < sw size /\ 0 <= y1 (fst d) /\ y2 (fst d) < sh size)%Z
    draws.
Proof.
  intros env st selRect size draws.
  assert (H1 : platform env = Wayland) by reflexivity.
  assert (H2 : appDevicePixelRatio env = inject_Z 2) by reflexivity.
  assert (H3 : (1 <= 2)%Z) by lia.
  assert (H4 : In (GrabDone (Painted size 2 draws)) (acceptEffects env st))
    by (vm_compute; right; right; left; reflexivity).
  exact (conj H1 (conj H2 (conj H3 (conj H4
           (acceptSelection_wayland_draws_inside env st 2 size 2 draws H1 H2 H3 H4))))).
Defined.

Lemma quickCropRegion_roundtrip_witness :
  (1 <= 2)%Z /\ QuickEditor.devicePixelRatio sampleQuick = inject_Z 2 /\
  rect_isEmpty (QuickEditor.mSelection sampleQuick) = false /\
  (0 <= x1 (QuickEditor.mSelection sampleQuick))%Z /\
  (x2 (QuickEditor.mSelection sampleQuick) < QuickEditor.widgetWidth sampleQuick)%Z /\
  (0 <= y1 (QuickEditor.mSelection sampleQuick))%Z /\
  (y2 (QuickEditor.mSelection sampleQuick) < QuickEditor.widgetHeight sampleQuick)%Z /\
  RememberAlways <> RememberNever /\
  exists region g,
    QuickEditor.acceptSelection Wayland [1; 2] sampleQuick = [QuickEditor.SetCropRegion region; QuickEditor.GrabDone g] /\
    QuickEditor.restoreSelection RememberAlways region (1 / inject_Z 2)
      (QuickEditor.widgetWidth sampleQuick) (QuickEditor.widgetHeight sampleQuick) QRect_null
    = QuickEditor.mSelection sampleQuick.
Proof.
  assert (H1 : (1 <= 2)%Z) by lia.
  assert (H2 : QuickEditor.devicePixelRatio sampleQuick = inject_Z 2) by reflexivity.
  assert (H3 : rect_isEmpty (QuickEditor.mSelection sampleQuick) = false) by reflexivity.
  assert (H4 : (0 <= x1 (QuickEditor.mSelection sampleQuick))%Z) by (cbn; lia).
  assert (H5 : (x2 (QuickEditor.mSelection sampleQuick) < QuickEditor.widgetWidth sampleQuick)%Z) by (cbn; lia).
  assert (H6 : (0 <= y1 (QuickEditor.mSelection sampleQuick))%Z) by (cbn; lia).
  assert (H7 : (y2 (QuickEditor.mSelection sampleQuick) < QuickEditor.widgetHeight sampleQuick)%Z) by (cbn; lia).
  assert (H8 : RememberAlways <> RememberNever) by discriminate.
  do 8 (split; [assumption|]).
  exact (quickCropRegion_roundtrip Wayland [1; 2] sampleQuick 2 RememberAlways QRect_null
           H1 H2 H3 H4 H5 H6 H7 H8).
Defined.

Lemma quickArrow_move_bounds_witness :
  0 <= QuickEditor.devicePixelRatioI sampleQuick /\
  QuickEditor.devicePixelRatioI sampleQuick * QuickEditor.devicePixelRatio sampleQuick == 1 /\
  (x2 (QuickEditor.arrowKey sampleQuick false false Key_Right) <= QuickEditor.widgetWidth sampleQuick)%Z.
Proof.
  assert (H1 : 0 <= QuickEditor.devicePixelRatioI sampleQuick) by (vm_compute; discriminate).
  assert (H2 : QuickEditor.devicePixelRatioI sampleQuick * QuickEditor.devicePixelRatio sampleQuick == 1)
    by (vm_compute; reflexivity).
  exact (conj H1 (conj H2 (quickArrow_move_bounds sampleQuick false Key_Right H1 H2))).
Defined.

Lemma quickRelease_ends_drag_witness :
  (RightButton <> LeftButton \/ QuickEditor.mMouseDragState sampleQuick <> QuickEditor.MouseState.Outside \/
   QuickEditor.mReleaseToCapture sampleQuick = false) /\
  let '(effs, st') := QuickEditor.mouseReleaseEvent X11 [] sampleQuick RightButton in
  effs = [] /\ QuickEditor.mMouseDragState st' = QuickEditor.MouseState.None /\
  QuickEditor.mToggleMagnifier st' = QuickEditor.mToggleMagnifier sampleQuick /\
  QuickEditor.mDisableArrowKeys st' = QuickEditor.mDisableArrowKeys sampleQuick.
Proof.
  assert (H : RightButton <> LeftButton \/ QuickEditor.mMouseDragState sampleQuick <> QuickEditor.MouseState.Outside \/
              QuickEditor.mReleaseToCapture sampleQuick = false) by (left; discriminate).
  split; [exact H|].
  generalize (quickRelease_ends_drag X11 [] sampleQuick RightButton H).
  destruct (QuickEditor.mouseReleaseEvent X11 [] sampleQuick RightButton).
  intros C; exact C.
Defined.

Lemma quickDoubleClick_commits_only_witness :
  QuickEditor.mouseDoubleClickEvent X11 [] sampleQuick LeftButton (mkQPoint 150 150) <> [] /\
  LeftButton = LeftButton /\ rect_containsPoint (QuickEditor.mSelection sampleQuick) (mkQPoint 150 150) = true /\
  rect_isEmpty (QuickEditor.mSelection sampleQuick) = false.
Proof.
  assert (H : QuickEditor.mouseDoubleClickEvent X11 [] sampleQuick LeftButton (mkQPoint 150 150) <> [])
    by (vm_compute; discriminate).
  exact (conj H (quickDoubleClick_commits_only X11 [] sampleQuick LeftButton (mkQPoint 150 150) H)).
Defined.

Lemma quickMouseLocation_zones_witness :
  (forall n, (n < 8)%nat ->
     QuickEditor.isPointInsideCircle (nthPoint (QuickEditor.mHandlePositions sampleQuick) n)
       (inject_Z (QuickEditor.mHandleRadius sampleQuick) * 2) (mkQPointF 150 105) = false) /\
  QuickEditor.mouseLocation sampleQuick (mkQPointF 150 105) = QuickEditor.MouseState.Top /\
  let sel := QuickEditor.mSelection sampleQuick in
  let sx := inject_Z (x1 sel) in let sy := inject_Z (y1 sel) in
  let sw := inject_Z (rect_width sel) in let sh := inject_Z (rect_height sel) in
  let big := (100 <= rect_width sel)%Z /\ (100 <= rect_height sel)%Z in
  match QuickEditor.mouseLocation sampleQuick (mkQPointF 150 105) with
  | QuickEditor.MouseState.Top => big /\ sx <= fx (mkQPointF 150 105) <= sx + sw /\ qAbs (fy (mkQPointF 150 105) - sy) <= 10
  | QuickEditor.MouseState.Bottom => big /\ sx <= fx (mkQPointF 150 105) <= sx + sw /\ qAbs (fy (mkQPointF 150 105) - sy - sh) <= 10
  | QuickEditor.MouseState.Left => big /\ sy <= fy (mkQPointF 150 105) <= sy + sh /\ qAbs (fx (mkQPointF 150 105) - sx) <= 10
  | QuickEditor.MouseState.Right => big /\ sy <= fy (mkQPointF 150 105) <= sy + sh /\ qAbs (fx (mkQPointF 150 105) - sx - sw) <= 10
  | QuickEditor.MouseState.Inside => rect_containsPoint sel (pf_toPoint (mkQPointF 150 105)) = true
  | QuickEditor.MouseState.Outside => rect_containsPoint sel (pf_toPoint (mkQPointF 150 105)) = false
  | _ => False
  end.
Proof.
  assert (H : forall n, (n < 8)%nat ->
     QuickEditor.isPointInsideCircle (nthPoint (QuickEditor.mHandlePositions sampleQuick) n)
       (inject_Z (QuickEditor.mHandleRadius sampleQuick) * 2) (mkQPointF 150 105) = false).
  { intros n Hn. do 8 (destruct n as [|n]; [vm_compute; reflexivity|]). lia. }
  assert (L : QuickEditor.mouseLocation sampleQuick (mkQPointF 150 105) = QuickEditor.MouseState.Top)
    by (vm_compute; reflexivity).
  exact (conj H (conj L (quickMouseLocation_zones sampleQuick (mkQPointF 150 105) H))).
Defined.

Lemma quickTranslation_identity_witness :
  In (mkQPoint 1920 0) (map fst [(mkQPoint 0 0, (2, mkQSize 3840 2160)); (mkQPoint 1920 0, (1, mkQSize 1920 1080))]) /\
  QuickEditor.mapValue
    (QuickEditor.computeCoordinatesAfterScaling
       [(mkQPoint 0 0, (2, mkQSize 3840 2160)); (mkQPoint 1920 0, (1, mkQSize 1920 1080))]) (mkQPoint 1920 0)
  = mkQPoint 1920 0.
Proof.
  assert (H : In (mkQPoint 1920 0)
                (map fst [(mkQPoint 0 0, (2, mkQSize 3840 2160)); (mkQPoint 1920 0, (1, mkQSize 1920 1080))]))
    by (right; left; reflexivity).
  exact (conj H (quickTranslation_identity _ _ H)).
Defined.

Lemma captureTimeRemaining_bounds_witness :
  (0 <= 1200)%Z /\
  (0 <= captureTimeRemaining 5000 1200 false <= Z.max 0 5000)%Z /\
  (false = true -> captureTimeRemaining 5000 1200 false = 0%Z).
Proof.
  assert (H : (0 <= 1200)%Z) by lia.
  exact (conj H (captureTimeRemaining_bounds 5000 1200 false H)).
Defined.

Lemma cropRegion_restore_covers_witness :
  In (SetCropRegion (rf_toAlignedRect (rf_normalized (selection sampleEditor))))
     (acceptEffects (mkEnv Wayland 1 true) sampleEditor) /\
  let n := rf_normalized (selection sampleEditor) in
  let r := selection (restoreCropRegion RememberAlways
                        (rf_toAlignedRect (rf_normalized (selection sampleEditor))) sampleEditor) in
  rf_within (selection sampleEditor) r /\
  (forall a b c d : Z, xp n == inject_Z a -> yp n == inject_Z b ->
     xp n + w n == inject_Z c -> yp n + h n == inject_Z d ->
     xp r == xp n /\ yp r == yp n /\ w r == w n /\ h r == h n).
Proof.
  assert (H : In (SetCropRegion (rf_toAlignedRect (rf_normalized (selection sampleEditor))))
                 (acceptEffects (mkEnv Wayland 1 true) sampleEditor)) by (vm_compute; left; reflexivity).
  exact (conj H (cropRegion_restore_covers (mkEnv Wayland 1 true) sampleEditor sampleEditor _ H)).
Defined.
